(** * The hvt tender's main program (tenders/hvt/hvt_main.c)

    A shallow embedding of [main] and of the static functions it is built
    from: [setup_modules], [handle_cmdarg], [handle_mem], [usage] and
    [version].  The functions of the tender that live in other translation
    units (the ELF loader, the manifest codec, the virtualisation backend,
    the compiled-in modules) and the C library are parameters of the
    development.  Every run yields the sequence of observable actions it
    performed (calls that leave [main]'s translation unit, lines written to
    the error stream) together with the way the process ended.  The
    program is sequential; [sig_handler], which only runs when a signal
    arrives, is not part of a run. *)

From Stdlib Require Import ZArith List String Ascii Bool Lia.
Import ListNotations.
Local Open Scope Z_scope.
Local Open Scope list_scope.

(** ** The manifest, as [main] sees it *)

(** [struct mft_entry]: the fields read by the tender. *)
Record mft_entry := MftEntry {
  e_name : string;
  e_type : Z;
  e_attached : bool
}.

(** [struct mft]: [mft->e[0 .. mft->entries - 1]]; a validated manifest has
    exactly [entries] elements. *)
Record mft := Mft { mft_e : list mft_entry }.

Definition entries (m : mft) : nat := List.length (mft_e m).

(** ** Observable actions *)

(** What a function outside [main]'s translation unit does when called: it
    comes back with a value, or it ends the process itself (the backend's
    functions return [void] and report failure through [err]/[errx]). *)
Inductive answer (A : Type) : Type :=
| Returns (a : A)
| Exits (status : Z).
Arguments Returns {A} a.
Arguments Exits {A} status.

(** The calls [main] and its helpers make, with the arguments that matter.
    A module is named by its position between [__start_modules] and
    [__stop_modules]. *)
Inductive callsite :=
| c_open (path : string)
| c_elf_load_note (fd : Z) (path : string)
| c_mft_validate (mft_size : Z)
| c_free
| c_handle_cmdarg (i : nat) (cmdarg : option string)
| c_sigaction (signo : Z)
| c_hvt_mem_size (mem_size : Z)
| c_hvt_init (mem_size : Z)
| c_elf_load (fd : Z) (path : string)
| c_close (fd : Z)
| c_hvt_vcpu_init (gpa_ep : Z)
| c_setup (i : nat)
| c_hvt_boot_info_init (gpa_kend : Z) (argc : Z) (argv : list string)
                       (m : mft) (mft_size : Z)
| c_hvt_drop_privileges
| c_hvt_vcpu_loop.

(** One entry of a run's log.  [Call c r] records the call [c] and what came
    of it; a call of a [void] function is logged as returning 0.  The other
    four are the error-stream primitives of the source, carrying the
    formatted text. *)
Inductive event :=
| Call (c : callsite) (r : answer Z)
| Fprintf (s : string)
| Warnx (s : string)
| Errx (status : Z) (s : string)
| Err (status : Z) (s : string).

(** How the process ends short of returning from [main]: [exit (status)],
    a failed [assert] ([abort]), or [Fault]: the second scan has stepped
    past the null pointer that ends the argument vector.  What the
    program reads from there on is not part of the vector (on Linux it is
    the environment) and C gives it no meaning; the model follows the run
    up to that step and no further. *)
Inductive outcome :=
| Exit (status : Z)
| Abort
| Fault.

Definition SIGINT : Z := 2.
Definition SIGTERM : Z := 15.

(** [size_t] of the 64-bit targets of hvt (x86_64, aarch64). *)
Definition SIZE_BITS : Z := 64.
Definition to_size_t (z : Z) : Z := z mod 2 ^ SIZE_BITS.
Definition SSIZE_MAX : Z := 2 ^ (SIZE_BITS - 1) - 1.
Definition SSIZE_MIN : Z := - 2 ^ (SIZE_BITS - 1).

(** ** [sscanf (cmdarg, "--mem=%zd", &mem)] *)

Definition isspace (c : ascii) : bool :=
  let n := nat_of_ascii c in
  Nat.eqb n 32 || (Nat.leb 9 n && Nat.leb n 13).

Definition isdigit (c : ascii) : bool :=
  let n := nat_of_ascii c in
  Nat.leb 48 n && Nat.leb n 57.

Definition digit_val (c : ascii) : Z := Z.of_nat (nat_of_ascii c) - 48.

Fixpoint skip_space (s : string) : string :=
  match s with
  | String c s' => if isspace c then skip_space s' else s
  | EmptyString => s
  end.

(** The value, in base ten, of the longest run of digits at the head of [s],
    continuing from [acc]. *)
Fixpoint scan_digits (s : string) (acc : Z) : Z :=
  match s with
  | String c s' => if isdigit c then scan_digits s' (10 * acc + digit_val c) else acc
  | EmptyString => acc
  end.

Definition has_digit (s : string) : bool :=
  match s with
  | String c _ => isdigit c
  | EmptyString => false
  end.

(** A string of decimal digits only. *)
Fixpoint all_digits (s : string) : bool :=
  match s with
  | String c s' => isdigit c && all_digits s'
  | EmptyString => true
  end.

(** A number outside the range of [ssize_t]: the C standard leaves the
    stored value undefined; the C libraries the tender builds against
    convert with [strtol] and saturate. *)
Definition saturate (z : Z) : Z := Z.max SSIZE_MIN (Z.min SSIZE_MAX z).

Inductive scan :=
| ScanEOF                 (* input failure: the string ended first *)
| ScanMismatch            (* matching failure *)
| ScanValue (v : Z).

(** The [%zd] directive: white space is skipped, then an optional sign and
    a non-empty run of decimal digits are converted. *)
Definition scan_zd (s : string) : scan :=
  match skip_space s with
  | EmptyString => ScanEOF
  | String c s' =>
      if Ascii.eqb c "-" then
        if has_digit s' then ScanValue (saturate (- scan_digits s' 0)) else ScanMismatch
      else if Ascii.eqb c "+" then
        if has_digit s' then ScanValue (saturate (scan_digits s' 0)) else ScanMismatch
      else
        if isdigit c then ScanValue (saturate (scan_digits (String c s') 0))
        else ScanMismatch
  end.

(** The ordinary characters of a format: each must be the next character of
    the input.  [inl rest] when all matched. *)
Fixpoint match_literal (lit s : string) : string + scan :=
  match lit with
  | EmptyString => inl s
  | String a lit' =>
      match s with
      | EmptyString => inr ScanEOF
      | String b s' => if Ascii.eqb a b then match_literal lit' s' else inr ScanMismatch
      end
  end.

(** The return value of [sscanf], and the contents of [mem] when the
    conversion stored one (the [ssize_t] result lands in a [size_t]). *)
Definition sscanf_mem (cmdarg : string) : Z * option Z :=
  match match_literal "--mem=" cmdarg with
  | inr ScanMismatch => (0, None)
  | inr _ => (-1, None)
  | inl rest =>
      match scan_zd rest with
      | ScanEOF => (-1, None)
      | ScanMismatch => (0, None)
      | ScanValue v => (1, Some (to_size_t v))
      end
  end.

(** [*argv[0] == '-'] *)
Definition is_option (a : string) : bool :=
  match a with
  | String c _ => Ascii.eqb c "-"
  | EmptyString => false
  end.

Section Model.

Context {world hvt : Type}.

(** ** Modules *)

(** [struct hvt_module_ops].  [setup] is mandatory (the source asserts it);
    the other two may be null.  An op receives the manifest by pointer and
    may change it; whatever else it touches is in the [world].  The
    [char *cmdarg] of [handle_cmdarg] is [None] when it is null. *)
Record hvt_module_ops := {
  ops_setup : hvt -> mft -> world -> answer (Z * mft * world);
  ops_handle_cmdarg : option (option string -> mft -> world -> answer (Z * mft * world));
  ops_usage : option string
}.

(** [struct hvt_module] *)
Record hvt_module := {
  m_name : string;
  ops : hvt_module_ops
}.

(** What [hvt_main.c] takes from elsewhere: the linker-assembled module
    table, build-time constants, and the functions it calls.  The C
    library's [open], [free], [sigaction] and [close] always come back; the
    tender's own functions may end the process. *)
Record env := {
  modules : list hvt_module;
  HVT_DROP_PRIVILEGES : bool;
  SOLO5_VERSION : string;
  MFT_RESERVED_FIRST : Z;
  mft_type_to_string : Z -> string;
  basename : string -> string;
  (** contents of the local [mem] of [handle_mem] before [sscanf] stores *)
  indeterminate : Z;
  sys_open : string -> world -> Z * world;
  elf_load_note : Z -> string -> world -> answer (Z * mft * Z * world);
  mft_validate : mft -> Z -> world -> answer (Z * mft * world);
  sys_free : world -> unit * world;
  sys_sigaction : Z -> world -> Z * world;
  hvt_mem_size : Z -> world -> answer (Z * world);
  hvt_init : Z -> world -> answer (hvt * world);
  elf_load : Z -> string -> hvt -> world -> answer (Z * Z * world);
  sys_close : Z -> world -> Z * world;
  hvt_vcpu_init : hvt -> Z -> world -> answer (unit * world);
  hvt_boot_info_init :
    hvt -> Z -> Z -> list string -> mft -> Z -> world -> answer (unit * world);
  hvt_drop_privileges : world -> answer (unit * world);
  hvt_vcpu_loop : hvt -> world -> answer (Z * world)
}.

(** ** Runs *)

Inductive res (A : Type) : Type :=
| Ok (a : A) (w : world)
| Stop (o : outcome).
Arguments Ok {A} a w.
Arguments Stop {A} o.

(** A computation: from the state of the world to the log of what it did and
    either a value with the new state, or the end of the process. *)
Definition M (A : Type) : Type := world -> list event * res A.

Definition ret {A} (a : A) : M A := fun w => ([], Ok a w).

Definition bind {A B} (m : M A) (f : A -> M B) : M B :=
  fun w =>
    match m w with
    | (t1, Ok a w1) => let (t2, r) := f a w1 in (t1 ++ t2, r)
    | (t1, Stop o) => (t1, Stop o)
    end.

Definition emit (ev : event) : M unit := fun w => ([ev], Ok tt w).

Definition stop {A} (o : outcome) : M A := fun _ => ([], Stop o).

(** Call [f], log it under [c] with the return value [rv] picks. *)
Definition call {R} (c : callsite) (rv : R -> Z) (f : world -> answer (R * world)) : M R :=
  fun w =>
    match f w with
    | Returns (r, w1) => ([Call c (Returns (rv r))], Ok r w1)
    | Exits st => ([Call c (Exits st)], Stop (Exit st))
    end.

Definition void {R} (_ : R) : Z := 0.

(** A C library function: it always returns. *)
Definition libc {R} (f : world -> R * world) : world -> answer (R * world) :=
  fun w => Returns (f w).

End Model.

Arguments hvt_module_ops : clear implicits.
Arguments hvt_module : clear implicits.
Arguments env : clear implicits.
Arguments res : clear implicits.
Arguments Ok {world A} a w.
Arguments Stop {world A} o.
Arguments M : clear implicits.

Declare Scope tender_scope.
Delimit Scope tender_scope with tender.
Notation "x <- c ;; k" := (bind c (fun x => k))
  (at level 100, c at next level, right associativity) : tender_scope.
Notation "' p <- c ;; k" := (bind c (fun p => k))
  (at level 100, p pattern, c at next level, right associativity) : tender_scope.
Notation "c ;;; k" := (bind c (fun _ => k))
  (at level 100, right associativity) : tender_scope.

(** ** The program *)

Definition nl : string := String (ascii_of_nat 10) EmptyString.

Section Program.

Context {world hvt : Type} (E : env world hvt).

Local Open Scope string_scope.
Local Open Scope list_scope.
Local Open Scope Z_scope.
Local Open Scope tender_scope.

Definition warnx (s : string) : M world unit := emit (Warnx s).

Definition fprintf (s : string) : M world unit := emit (Fprintf s).

Definition errx {A} (status : Z) (s : string) : M world A :=
  fun _ => ([Errx status s], Stop (Exit status)).

Definition err {A} (status : Z) (s : string) : M world A :=
  fun _ => ([Err status s], Stop (Exit status)).

Definition exit {A} (status : Z) : M world A := stop (Exit status).

(** *** [setup_modules] *)

Definition setup_failed (md : hvt_module world hvt) : string :=
  "Module `" ++ m_name md ++ "' setup failed".

Definition please_check (u : string) : string :=
  "Please check you have correctly specified:" ++ nl ++ "    " ++ u.

(** The first loop of [setup_modules], from module number [i] on. *)
Fixpoint setup_from (i : nat) (ms : list (hvt_module world hvt)) (h : hvt) (m : mft)
  : M world mft :=
  match ms with
  | [] => ret m
  | md :: ms' =>
      '(rc, m1) <- call (c_setup i) fst (ops_setup (ops md) h m) ;;
      if rc =? 0 then setup_from (S i) ms' h m1
      else
        warnx (setup_failed md) ;;;
        match ops_usage (ops md) with
        | Some u => warnx (please_check u)
        | None => ret tt
        end ;;;
        exit 1
  end.

Definition is_reserved (ty : Z) : bool := MFT_RESERVED_FIRST E <=? ty.

Definition not_attached (en : mft_entry) : string :=
  "Device '" ++ e_name en ++ "' of type " ++ mft_type_to_string E (e_type en)
  ++ " declared but not attached.".

(** The second loop of [setup_modules]: [fail] after the entries [es]. *)
Fixpoint audit (es : list mft_entry) (fail : bool) : M world bool :=
  match es with
  | [] => ret fail
  | en :: es' =>
      if is_reserved (e_type en) then audit es' fail
      else if negb (e_attached en) then
        warnx (not_attached en) ;;; audit es' true
      else audit es' fail
  end.

Definition all_attached_msg : string :=
  "All declared devices must be attached. See --help for syntax.".

Definition setup_modules (h : hvt) (m : mft) : M world mft :=
  m1 <- setup_from 0 (modules E) h m ;;
  fail <- audit (mft_e m1) false ;;
  if (fail : bool) then errx 1 all_attached_msg else ret m1.

(** *** [handle_cmdarg] *)

Fixpoint handle_cmdarg_from (i : nat) (ms : list (hvt_module world hvt))
  (cmdarg : option string) (m : mft) : M world (Z * mft) :=
  match ms with
  | [] => ret (-1, m)
  | md :: ms' =>
      match ops_handle_cmdarg (ops md) with
      | Some hc =>
          '(rc, m1) <- call (c_handle_cmdarg i cmdarg) fst (hc cmdarg m) ;;
          if rc =? 0 then ret (0, m1)
          else handle_cmdarg_from (S i) ms' cmdarg m1
      | None => handle_cmdarg_from (S i) ms' cmdarg m
      end
  end.

Definition handle_cmdarg (cmdarg : option string) (m : mft) : M world (Z * mft) :=
  handle_cmdarg_from 0 (modules E) cmdarg m.

(** *** [handle_mem] *)

Definition malformed_mem : string := "Malformed argument to --mem".

(** [mem << 20] on a [size_t] *)
Definition shl20 (mem : Z) : Z := to_size_t (Z.shiftl mem 20).

(** Returns what is stored through [mem_size]. *)
Definition handle_mem (cmdarg : string) : M world Z :=
  let (rc, stored) := sscanf_mem cmdarg in
  let mem := match stored with Some v => v | None => to_size_t (indeterminate E) end in
  let mem := shl20 mem in
  if negb (rc =? 1) || (mem <=? 0) then errx 1 malformed_mem
  else ret mem.

(** *** [usage] and [version] *)

Definition usage_text (prog : string) : list event :=
  [ Fprintf ("usage: " ++ prog ++ " [ CORE OPTIONS ] [ MODULE OPTIONS ] [ -- ] "
             ++ "KERNEL [ ARGS ]" ++ nl);
    Fprintf ("KERNEL is the filename of the unikernel to run." ++ nl);
    Fprintf ("ARGS are optional arguments passed to the unikernel." ++ nl);
    Fprintf ("Core options:" ++ nl);
    Fprintf ("  [ --mem=512 ] (guest memory in MB)" ++ nl);
    Fprintf ("    --help (display this help)" ++ nl);
    Fprintf ("    --version (display version information)" ++ nl);
    Fprintf "Compiled-in modules: " ]
  ++ map (fun md => Fprintf (m_name md ++ " ")) (modules E)
  ++ [ Fprintf nl;
       Fprintf ("Compiled-in module options:" ++ nl) ]
  ++ flat_map (fun md => match ops_usage (ops md) with
                         | Some u => [Fprintf ("    " ++ u ++ nl)]
                         | None => []
                         end) (modules E)
  ++ (if existsb (fun md => match ops_usage (ops md) with
                            | Some _ => true
                            | None => false
                            end) (modules E)
      then [] else [Fprintf ("    (none)" ++ nl)]).

Definition usage {A} (prog : string) : M world A :=
  fun _ => (usage_text prog, Stop (Exit 1)).

Definition version {A} (prog : string) : M world A :=
  fprintf (prog ++ " " ++ SOLO5_VERSION E ++ nl) ;;; exit 0.

(** *** [main] *)

(** The first scan of the command line: what [argv1] points at when the
    loop is left. *)
Fixpoint main_pass1 (prog : string) (argv1 : list string) : M world (list string) :=
  match argv1 with
  | [] => ret []
  | a :: rest =>
      if is_option a then
        if String.eqb "--" a then ret rest
        else if String.eqb "--help" a then usage prog
        else if String.eqb "--version" a then version prog
        else main_pass1 prog rest
      else ret argv1
  end.

Definition invalid_option (a : string) : string := "Invalid option: `" ++ a ++ "'".

(** The second scan: what [argv] points at when the loop is left, with the
    memory size and the manifest as the options left them.  After
    [--mem=...] as the last argument [*argv] is the null pointer; if a
    module takes it, [argv++] at line 221 leaves the vector ([Fault]). *)
Fixpoint main_pass2 (prog : string) (argv : list string) (mem_size : Z) (m : mft)
  : M world (list string * Z * mft) :=
  match argv with
  | [] => ret ([], mem_size, m)
  | a :: rest =>
      if negb (is_option a) then ret (argv, mem_size, m)
      else if String.eqb "--" a then ret (rest, mem_size, m)
      else if String.prefix "--mem=" a then
        mem_size1 <- handle_mem a ;;
        (* matched = 1; argc--; argv++: [*argv] is now what follows [a] *)
        '(rc, m1) <- handle_cmdarg (hd_error rest) m ;;
        if rc =? 0 then
          match rest with
          | [] => stop Fault (* argv++ beyond the terminating null *)
          | _ :: rest' => main_pass2 prog rest' mem_size1 m1
          end
        else main_pass2 prog rest mem_size1 m1
      else
        '(rc, m1) <- handle_cmdarg (Some a) m ;;
        if rc =? 0 then main_pass2 prog rest mem_size m1
        else warnx (invalid_option a) ;;; usage prog
  end.

(** [main] is cut in four at the blank lines of the source; each part ends
    by entering the next. *)

Definition no_drop_warning1 : string :=
  "WARNING: Tender is configured with HVT_DROP_PRIVILEGES=0. Not"
  ++ " dropping any privileges.".
Definition no_drop_warning2 : string :=
  "WARNING: This is not recommended for production use.".

(** Lines 248-262: the virtual CPU, the modules, the boot information, the
    privilege drop and the run loop. *)
Definition main_start (h : hvt) (gpa_ep gpa_kend : Z) (argc : Z) (argv : list string)
  (m : mft) (mft_size : Z) : M world Z :=
  call (c_hvt_vcpu_init gpa_ep) void (hvt_vcpu_init E h gpa_ep) ;;;
  m <- setup_modules h m ;;
  call (c_hvt_boot_info_init gpa_kend argc argv m mft_size) void
       (hvt_boot_info_init E h gpa_kend argc argv m mft_size) ;;;
  (if HVT_DROP_PRIVILEGES E then
     call c_hvt_drop_privileges void (hvt_drop_privileges E)
   else
     warnx no_drop_warning1 ;;;
     warnx no_drop_warning2) ;;;
  call c_hvt_vcpu_loop id (hvt_vcpu_loop E h).

Definition no_sig_handler : string := "Could not install signal handler".

(** Lines 232-246: signal handlers, guest memory, the image, [close]. *)
Definition main_init (elf_fd : Z) (elf_filename : string) (mem_size : Z)
  (argc : Z) (argv : list string) (m : mft) (mft_size : Z) : M world Z :=
  rc <- call (c_sigaction SIGINT) id (libc (sys_sigaction E SIGINT)) ;;
  if rc =? -1 then err 1 no_sig_handler else
  rc <- call (c_sigaction SIGTERM) id (libc (sys_sigaction E SIGTERM)) ;;
  if rc =? -1 then err 1 no_sig_handler else
  mem_size <- call (c_hvt_mem_size mem_size) id (hvt_mem_size E mem_size) ;;
  h <- call (c_hvt_init mem_size) void (hvt_init E mem_size) ;;
  '(gpa_ep, gpa_kend) <-
    call (c_elf_load elf_fd elf_filename) void (elf_load E elf_fd elf_filename h) ;;
  call (c_close elf_fd) id (libc (sys_close E elf_fd)) ;;;
  main_start h gpa_ep gpa_kend argc argv m mft_size.

(** Lines 198-230: the second scan, the assertion, and the step over the
    kernel's name.  [argv1] is where the first scan stopped;
    [elf_filename == *argv] compares two slots of one vector, which are
    the same slot exactly when as many arguments follow them. *)
Definition main_options (prog : string) (args argv1 : list string) (elf_fd : Z)
  (elf_filename : string) (mem_size : Z) (m : mft) (mft_size : Z) : M world Z :=
  '(argv, mem_size, m) <- main_pass2 prog args mem_size m ;;
  if negb (Nat.eqb (List.length argv) (List.length argv1)) then stop Abort else
  let argv := tl argv in
  let argc := Z.of_nat (List.length argv) in
  main_init elf_fd elf_filename mem_size argc argv m mft_size.

Definition could_not_open (f : string) : string := f ++ ": Could not open".
Definition no_manifest (f : string) : string :=
  f ++ ": No Solo5 manifest found in executable".
Definition invalid_manifest (f : string) : string :=
  f ++ ": Solo5 manifest is invalid".

(** Lines 137-196: the first scan, [open], the manifest.  [argv0] is
    [argv[0]] and [args] the rest of the vector. *)
Definition main (argv0 : string) (args : list string) : M world Z :=
  let mem_size := 536870912 (* 0x20000000 *) in
  let prog := basename E argv0 in
  argv1 <- main_pass1 prog args ;;
  match argv1 with
  | [] => warnx "Missing KERNEL operand" ;;; usage prog
  | elf_filename :: _ =>
    elf_fd <- call (c_open elf_filename) id (libc (sys_open E elf_filename)) ;;
    if elf_fd =? -1 then err 1 (could_not_open elf_filename) else
    '(rc, m, mft_size) <-
      call (c_elf_load_note elf_fd elf_filename) (fun r => fst (fst r))
           (elf_load_note E elf_fd elf_filename) ;;
    if rc =? -1 then errx 1 (no_manifest elf_filename) else
    '(rc, m) <- call (c_mft_validate mft_size) fst (mft_validate E m mft_size) ;;
    if rc =? -1 then
      call c_free void (libc (sys_free E)) ;;;
      errx 1 (invalid_manifest elf_filename)
    else
      main_options prog args argv1 elf_fd elf_filename mem_size m mft_size
  end.


End Program.


(** ** Reading a log *)

(** What a run that ends before the image is closed can log. *)
Definition early_event (e : event) : bool :=
  match e with
  | Call (c_open _) _ | Call (c_elf_load_note _ _) _ | Call (c_mft_validate _) _
  | Call c_free _ | Call (c_handle_cmdarg _ _) _ | Call (c_sigaction _) _
  | Call (c_hvt_mem_size _) _ | Call (c_hvt_init _) _ | Call (c_elf_load _ _) _ => true
  | Call _ _ => false
  | Warnx s => String.eqb s "Missing KERNEL operand" || String.prefix "Invalid option: `" s
  | Fprintf _ | Errx _ _ | Err _ _ => true
  end.

(** A module's [handle_cmdarg] was called and came back. *)
Definition cmdarg_call (e : event) : bool :=
  match e with
  | Call (c_handle_cmdarg _ _) (Returns _) => true
  | _ => false
  end.

(** What [setup_modules] can log. *)
Definition setup_event (e : event) : bool :=
  match e with
  | Call (c_setup _) _ | Warnx _ | Errx _ _ => true
  | _ => false
  end.

(** What [main_start] can log. *)
Definition start_event (e : event) : bool :=
  match e with
  | Call (c_hvt_vcpu_init _) _ | Call (c_hvt_boot_info_init _ _ _ _ _) _
  | Call c_hvt_drop_privileges _ | Call c_hvt_vcpu_loop _ => true
  | _ => setup_event e
  end.

Definition is_drop (e : event) : bool :=
  match e with Call c_hvt_drop_privileges _ => true | _ => false end.

Definition is_close (e : event) : bool :=
  match e with Call (c_close _) _ => true | _ => false end.

Definition is_setup (e : event) : bool :=
  match e with Call (c_setup _) _ => true | _ => false end.

(** The [setup] of modules [i], [i + 1], ..., [i + n - 1], each returning 0. *)
Definition setups_ok (i n : nat) : list event :=
  map (fun j => Call (c_setup j) (Returns 0)) (seq i n).

Section Reports.

Context {world hvt : Type} (E : env world hvt).

(** The entries the second loop of [setup_modules] complains about. *)
Definition unattached (es : list mft_entry) : list mft_entry :=
  filter (fun en => negb (is_reserved E (e_type en)) && negb (e_attached en)) es.

(** What follows "setup failed" for a module. *)
Definition usage_hint (md : hvt_module world hvt) : list event :=
  match ops_usage (ops md) with
  | Some u => [Warnx (please_check u)]
  | None => []
  end.

(** How a run ends once [hvt_vcpu_loop] has answered [al]. *)
Definition loop_end (al : answer Z) (r : res world Z) : Prop :=
  match al with
  | Exits st => r = Stop (Exit st)
  | Returns z => exists w', r = Ok z w'
  end.

End Reports.

(** ** Kinds of argument, more kinds of log entry *)

(** An option that the first scan steps over. *)
Definition plain_option (a : string) : bool :=
  is_option a && negb (String.eqb "--" a)
  && negb (String.eqb "--help" a) && negb (String.eqb "--version" a).

Definition is_fprintf (e : event) : bool :=
  match e with Fprintf _ => true | _ => false end.

(** What the second scan of the command line can log. *)
Definition options_event (e : event) : bool :=
  match e with
  | Call (c_handle_cmdarg _ _) _ | Fprintf _ | Warnx _ | Errx _ _ => true
  | _ => false
  end.

(** What [main_init] can log, and [main_start] after it. *)
Definition init_event (e : event) : bool :=
  match e with
  | Call (c_sigaction _) _ | Call (c_hvt_mem_size _) _ | Call (c_hvt_init _) _
  | Call (c_elf_load _ _) _ | Call (c_close _) _ | Err _ _ => true
  | _ => start_event e
  end.

(** What [main_options] can log. *)
Definition boot_event (e : event) : bool := options_event e || init_event e.

(** A memory size [handle_mem] can store: whole mebibytes, not none. *)
Definition mebibytes (v : Z) : Prop := 0 < v < 2 ^ 64 /\ v mod 2 ^ 20 = 0.

Section Handlers.

Context {world hvt : Type}.

(** The places in the table, counted from [i], of the modules that have a
    [handle_cmdarg]. *)
Fixpoint handler_positions (i : nat) (ms : list (hvt_module world hvt)) : list nat :=
  match ms with
  | [] => []
  | md :: ms' =>
      match ops_handle_cmdarg (ops md) with
      | Some _ => i :: handler_positions (S i) ms'
      | None => handler_positions (S i) ms'
      end
  end.

(** No module in [ms] takes the null pointer for an option of its own: a
    [handle_cmdarg] that is shown the null pointer and returns does not
    return 0. *)
Definition null_declined (ms : list (hvt_module world hvt)) : Prop :=
  forall md hc m w rc m' w',
    In md ms -> ops_handle_cmdarg (ops md) = Some hc ->
    hc None m w = Returns (rc, m', w') -> rc <> 0.

End Handlers.

Definition is_loop (e : event) : bool :=
  match e with Call c_hvt_vcpu_loop _ => true | _ => false end.

Definition is_call (e : event) : bool :=
  match e with Call _ _ => true | _ => false end.

(** [elf_load] has returned. *)
Definition is_loaded (e : event) : bool :=
  match e with Call (c_elf_load _ _) (Returns _) => true | _ => false end.

Definition is_hvt_init (e : event) : bool :=
  match e with Call (c_hvt_init _) _ => true | _ => false end.

(** ** A small configuration on which the model runs *)

Module Sample.

Local Open Scope string_scope.
Local Open Scope list_scope.
Local Open Scope Z_scope.

(** A manifest with one reserved entry and one network device. *)
Definition note : mft_entry := MftEntry "" (2 ^ 30) false.
Definition net0 : mft_entry := MftEntry "net0" 2 false.
Definition manifest : mft := Mft [note; net0].

Definition attach (ty : Z) (m : mft) : mft :=
  Mft (map (fun en => if e_type en =? ty
                      then MftEntry (e_name en) (e_type en) true else en)
           (mft_e m)).

Definition accept (m : mft) (w : unit) : answer (Z * mft * unit) := Returns (0, m, w).
Definition decline (m : mft) (w : unit) : answer (Z * mft * unit) := Returns (-1, m, w).

(** No options, [setup] succeeds. *)
Definition core : hvt_module unit unit :=
  {| m_name := "core";
     ops := {| ops_setup := fun _ => accept;
               ops_handle_cmdarg := None;
               ops_usage := None |} |}.

(** Claims [--net:...] and attaches the network devices. *)
Definition net : hvt_module unit unit :=
  {| m_name := "net";
     ops := {| ops_setup := fun _ => accept;
               ops_handle_cmdarg :=
                 Some (fun a m => match a with
                                  | Some s => if String.prefix "--net:" s
                                              then accept (attach 2 m) else decline m
                                  | None => decline m
                                  end);
               ops_usage := Some "--net:NAME=IFACE" |} |}.

(** Claims whatever it is shown. *)
Definition greedy : hvt_module unit unit :=
  {| m_name := "greedy";
     ops := {| ops_setup := fun _ => accept;
               ops_handle_cmdarg := Some (fun _ => accept);
               ops_usage := None |} |}.

(** [setup] fails. *)
Definition broken : hvt_module unit unit :=
  {| m_name := "broken";
     ops := {| ops_setup := fun _ => decline;
               ops_handle_cmdarg := None;
               ops_usage := Some "--broken" |} |}.

Definition config (ms : list (hvt_module unit unit)) (drop : bool) : env unit unit :=
  {| modules := ms;
     HVT_DROP_PRIVILEGES := drop;
     SOLO5_VERSION := "v0.6.4";
     MFT_RESERVED_FIRST := 2 ^ 30;
     mft_type_to_string := fun ty => if ty =? 2 then "NET_BASIC" else "UNKNOWN";
     basename := fun s => s;
     indeterminate := 0;
     sys_open := fun _ w => (3, w);
     elf_load_note := fun _ _ w => Returns (0, manifest, 96, w);
     mft_validate := fun m _ w => Returns (0, m, w);
     sys_free := fun w => (tt, w);
     sys_sigaction := fun _ w => (0, w);
     hvt_mem_size := fun sz w => Returns (sz, w);
     hvt_init := fun _ w => Returns (tt, w);
     elf_load := fun _ _ _ w => Returns (1048576, 2097152, w);
     sys_close := fun _ w => (0, w);
     hvt_vcpu_init := fun _ _ w => Returns (tt, w);
     hvt_boot_info_init := fun _ _ _ _ _ _ w => Returns (tt, w);
     hvt_drop_privileges := fun w => Returns (tt, w);
     hvt_vcpu_loop := fun _ w => Returns (0, w) |}.

(** [core] and [net], privileges dropped. *)
Definition plain : env unit unit := config [core; net] true.

(** Two modules that both take [--net:...]. *)
Definition rivals : env unit unit := config [core; net; greedy] true.

(** A module whose [setup] fails, between two that work. *)
Definition faulty : env unit unit := config [core; broken; net] true.

End Sample.

(** ** Configurations in which a step of the start-up fails *)

Module Faults.

Local Open Scope string_scope.
Local Open Scope list_scope.
Local Open Scope Z_scope.

(** As [Sample.config], with the answers of [open], [elf_load_note],
    [mft_validate] and [sigaction] to choose. *)
Definition config (ms : list (hvt_module unit unit)) (drop : bool)
  (fd rcn rcv : Z) (rsig : Z -> Z) : env unit unit :=
  {| modules := ms;
     HVT_DROP_PRIVILEGES := drop;
     SOLO5_VERSION := "v0.6.4";
     MFT_RESERVED_FIRST := 2 ^ 30;
     mft_type_to_string := fun ty => if ty =? 2 then "NET_BASIC" else "UNKNOWN";
     basename := fun s => s;
     indeterminate := 0;
     sys_open := fun _ w => (fd, w);
     elf_load_note := fun _ _ w => Returns (rcn, Sample.manifest, 96, w);
     mft_validate := fun m _ w => Returns (rcv, m, w);
     sys_free := fun w => (tt, w);
     sys_sigaction := fun s w => (rsig s, w);
     hvt_mem_size := fun sz w => Returns (sz, w);
     hvt_init := fun _ w => Returns (tt, w);
     elf_load := fun _ _ _ w => Returns (1048576, 2097152, w);
     sys_close := fun _ w => (0, w);
     hvt_vcpu_init := fun _ _ w => Returns (tt, w);
     hvt_boot_info_init := fun _ _ _ _ _ _ w => Returns (tt, w);
     hvt_drop_privileges := fun w => Returns (tt, w);
     hvt_vcpu_loop := fun _ w => Returns (0, w) |}.

(** The image cannot be opened. *)
Definition unopened : env unit unit :=
  config [Sample.core; Sample.net] true (-1) 0 0 (fun _ => 0).

(** The image has no manifest. *)
Definition no_note : env unit unit :=
  config [Sample.core; Sample.net] true 3 (-1) 0 (fun _ => 0).

(** The manifest does not validate. *)
Definition bad_manifest : env unit unit :=
  config [Sample.core; Sample.net] true 3 0 (-1) (fun _ => 0).

(** The handler for SIGTERM cannot be installed. *)
Definition no_sigterm : env unit unit :=
  config [Sample.core; Sample.net] true 3 0 0 (fun s => if s =? SIGTERM then -1 else 0).

(** A build with [HVT_DROP_PRIVILEGES=0]. *)
Definition permissive : env unit unit :=
  config [Sample.core; Sample.net] false 3 0 0 (fun _ => 0).

End Faults.

(** * Properties *)

Section Properties.

Context {world hvt : Type} (E : env world hvt).

Local Open Scope string_scope.
Local Open Scope list_scope.
Local Open Scope Z_scope.

(** ** [handle_mem] *)

(** What [handle_mem] does with four tokens. *)
Lemma handle_mem_samples : forall w : world,
  handle_mem E "--mem=512" w = ([], Ok (512 * 2 ^ 20) w) /\
  handle_mem E "--mem=0" w = ([Errx 1 malformed_mem], Stop (Exit 1)) /\
  handle_mem E "--mem=abc" w = ([Errx 1 malformed_mem], Stop (Exit 1)) /\
  handle_mem E "--mem=-1" w = ([], Ok (2 ^ 64 - 2 ^ 20) w).
Proof.
  intro w. repeat split; reflexivity.
Qed.

Lemma isdigit_not_space c : isdigit c = true -> isspace c = false.
Proof. destruct c as [[] [] [] [] [] [] [] []]; try discriminate; reflexivity. Qed.

Lemma isdigit_not_sign c :
  isdigit c = true -> Ascii.eqb c "-" = false /\ Ascii.eqb c "+" = false.
Proof. destruct c as [[] [] [] [] [] [] [] []]; try discriminate; split; reflexivity. Qed.

Lemma scan_digits_app ds : forall suf acc,
  all_digits ds = true -> has_digit suf = false ->
  scan_digits (ds ++ suf) acc = scan_digits ds acc.
Proof.
  induction ds as [|c ds IH]; simpl; intros suf acc Hd Hs.
  - destruct suf as [|c s]; simpl in *; [reflexivity | now rewrite Hs].
  - apply andb_true_iff in Hd as [Hc Hd]. rewrite Hc. now apply IH.
Qed.

Lemma scan_zd_digits ds suf :
  ds <> "" -> all_digits ds = true -> has_digit suf = false ->
  scan_zd (ds ++ suf) = ScanValue (saturate (scan_digits ds 0)).
Proof.
  intros Hne Hd Hs. destruct ds as [|c ds]; [congruence|].
  pose proof Hd as Hd'. simpl in Hd. apply andb_true_iff in Hd as [Hc Hd].
  unfold scan_zd. cbn [append skip_space].
  rewrite (isdigit_not_space _ Hc).
  destruct (isdigit_not_sign _ Hc) as [-> ->]. rewrite Hc.
  change (String c (ds ++ suf)%string) with (String c ds ++ suf)%string.
  now rewrite scan_digits_app.
Qed.

(** C10 (as amended): a token [--mem=<digits><suffix>], where the digits
    denote a number n with 0 < n < 2^44 and the suffix does not start with
    a digit, is accepted by [handle_mem]: the memory size becomes n * 2^20
    and the suffix is ignored. *)
Theorem handle_mem_ignores_suffix : forall ds suf (w : world),
  ds <> "" -> all_digits ds = true -> has_digit suf = false ->
  0 < scan_digits ds 0 < 2 ^ 44 ->
  handle_mem E ("--mem=" ++ ds ++ suf) w = ([], Ok (scan_digits ds 0 * 2 ^ 20) w).
Proof.
  intros ds suf w Hne Hd Hs Hn.
  unfold handle_mem, sscanf_mem.
  cbn [append match_literal Ascii.eqb Bool.eqb].
  rewrite (scan_zd_digits ds suf Hne Hd Hs).
  set (n := scan_digits ds 0) in *.
  assert (Hsat : saturate n = n).
  { unfold saturate, SSIZE_MAX, SSIZE_MIN, SIZE_BITS. simpl Z.sub. lia. }
  rewrite Hsat.
  assert (Hsz : to_size_t n = n).
  { unfold to_size_t, SIZE_BITS. apply Z.mod_small. lia. }
  rewrite Hsz.
  assert (Hsh : shl20 n = n * 2 ^ 20).
  { unfold shl20, to_size_t, SIZE_BITS. rewrite Z.shiftl_mul_pow2 by lia.
    apply Z.mod_small. lia. }
  rewrite Hsh.
  replace (negb (1 =? 1) || (n * 2 ^ 20 <=? 0)) with false; [reflexivity|].
  symmetry. simpl. apply Z.leb_gt. lia.
Qed.

(** ** Running a computation step by step *)

Lemma bind_inv {A B} (m : M world A) (f : A -> M world B) w tr r :
  bind m f w = (tr, r) ->
  (exists o, m w = (tr, Stop o) /\ r = Stop o) \/
  (exists t1 a w1 t2, m w = (t1, Ok a w1) /\ f a w1 = (t2, r) /\ tr = t1 ++ t2).
Proof.
  unfold bind. destruct (m w) as [t1 [a w1|o]].
  - destruct (f a w1) as [t2 r2] eqn:Hf. intros [= <- <-]. right. eauto 8.
  - intros [= <- <-]. left. eauto.
Qed.

Lemma call_inv {R} c rv (f : world -> answer (R * world)) w tr r :
  call c rv f w = (tr, r) ->
  (exists a w1, f w = Returns (a, w1) /\ tr = [Call c (Returns (rv a))] /\ r = Ok a w1) \/
  (exists st, f w = Exits st /\ tr = [Call c (Exits st)] /\ r = Stop (Exit st)).
Proof.
  unfold call. destruct (f w) as [[a w1]|st]; intros [= <- <-]; eauto 8.
Qed.

Lemma bind_call_inv {R B} c rv (f : world -> answer (R * world))
      (k : R -> M world B) w tr r :
  bind (call c rv f) k w = (tr, r) ->
  (exists st, f w = Exits st /\ tr = [Call c (Exits st)] /\ r = Stop (Exit st)) \/
  (exists a w1 t2, f w = Returns (a, w1) /\ k a w1 = (t2, r)
                   /\ tr = Call c (Returns (rv a)) :: t2).
Proof.
  unfold bind, call. destruct (f w) as [[a w1]|st].
  - destruct (k a w1) as [t2 r2] eqn:Hk. intros [= <- <-]. right. eauto 8.
  - intros [= <- <-]. left. eauto.
Qed.

Lemma bind_libc_inv {R B} c rv (g : world -> R * world)
      (k : R -> M world B) w tr r :
  bind (call c rv (libc g)) k w = (tr, r) ->
  exists t2, k (fst (g w)) (snd (g w)) = (t2, r)
             /\ tr = Call c (Returns (rv (fst (g w)))) :: t2.
Proof.
  intro H. apply bind_call_inv in H as [(st & Hf & _)|(a & w1 & t2 & Hf & Hk & ->)].
  - discriminate Hf.
  - unfold libc in Hf. injection Hf as Hf. rewrite Hf. simpl. eauto.
Qed.

Lemma bind_emit_inv {B} e (k : unit -> M world B) w tr r :
  bind (emit e) k w = (tr, r) ->
  exists t2, k tt w = (t2, r) /\ tr = e :: t2.
Proof.
  unfold bind, emit. destruct (k tt w) as [t2 r2]. intros [= <- <-]. eauto.
Qed.

Lemma bind_ret_l {A B} (a : A) (k : A -> M world B) w : bind (ret a) k w = k a w.
Proof. unfold bind, ret. now destruct (k a w). Qed.

Lemma bind_assoc {A B C} (m : M world A) (f : A -> M world B) (g : B -> M world C) w :
  bind (bind m f) g w = bind m (fun a => bind (f a) g) w.
Proof.
  unfold bind. destruct (m w) as [t1 [a w1|o]]; [|reflexivity].
  destruct (f a w1) as [t2 [b w2|o]]; [|reflexivity].
  destruct (g b w2) as [t3 r3]. now rewrite app_assoc.
Qed.

Ltac run1 H :=
  lazymatch type of H with
  | bind (call _ _ (libc _)) _ _ = _ =>
      apply bind_libc_inv in H; destruct H as (? & H & ->)
  | bind (call _ _ _) _ _ = _ =>
      apply bind_call_inv in H;
      destruct H as [(? & ? & -> & ->) | (? & ? & ? & ? & H & ->)]
  | bind (emit _) _ _ = _ =>
      apply bind_emit_inv in H; destruct H as (? & H & ->)
  | bind (warnx _) _ _ = _ => unfold warnx in H
  | bind (fprintf _) _ _ = _ => unfold fprintf in H
  | bind (ret _) _ _ = _ => rewrite bind_ret_l in H
  | bind (bind _ _) _ _ = _ => rewrite bind_assoc in H
  | bind (match ?x with _ => _ end) _ _ = _ => destruct x eqn:?
  | (if ?c then _ else _) _ = _ => destruct c eqn:?
  | (match ?a with _ => _ end) _ = _ => destruct a eqn:?
  | call _ _ (libc _) _ = _ =>
      apply call_inv in H;
      destruct H as [(? & ? & H & -> & ->) | (? & H & _)];
      [unfold libc in H; injection H as <- <- | discriminate H]
  | call _ _ _ _ = _ =>
      apply call_inv in H;
      destruct H as [(? & ? & ? & -> & ->) | (? & ? & -> & ->)]
  | err _ _ _ = _ => unfold err in H; injection H as <- <-
  | errx _ _ _ = _ => unfold errx in H; injection H as <- <-
  | exit _ _ = _ => unfold exit, stop in H; injection H as <- <-
  | stop _ _ = _ => unfold stop in H; injection H as <- <-
  | ret _ _ = _ => unfold ret in H; injection H as <- <-
  | usage _ _ _ = _ => unfold usage in H; injection H as <- <-
  | _ => progress cbv beta in H
  end.

Ltac run H := repeat run1 H.


Lemma Forall_app_intro {A} (P : A -> Prop) l1 l2 :
  Forall P l1 -> Forall P l2 -> Forall P (l1 ++ l2).
Proof. intros. apply Forall_app. auto. Qed.

Lemma usage_text_early prog : Forall (fun e => early_event e = true) (usage_text E prog).
Proof.
  unfold usage_text. repeat (apply Forall_app_intro); repeat (apply Forall_cons; [reflexivity|]);
    try apply Forall_nil.
  - apply Forall_forall. intros e He. apply in_map_iff in He as (md & <- & _). reflexivity.
  - apply Forall_forall. intros e He. apply in_flat_map in He as (md & _ & He).
    destruct (ops_usage (ops md)); simpl in He; [destruct He as [<-|[]]; reflexivity | destruct He].
  - destruct (existsb _ _); repeat constructor.
Qed.

Lemma cmdarg_call_early t :
  Forall (fun e => cmdarg_call e = true) t -> Forall (fun e => early_event e = true) t.
Proof.
  apply Forall_impl. intros [[] []| | | |]; simpl; congruence.
Qed.

Lemma main_pass1_run prog : forall args w tr r,
  main_pass1 E prog args w = (tr, r) ->
  (exists opts argv1, r = Ok argv1 w /\ tr = [] /\ args = opts ++ argv1) \/
  (Forall (fun e => early_event e = true) tr /\ exists st, r = Stop (Exit st)).
Proof.
  induction args as [|a rest IH]; intros w tr r H; simpl in H.
  - run H. left. exists [], []. auto.
  - run H.
    + left. exists [a], rest. auto.
    + right. split; [apply usage_text_early | eauto].
    + unfold version in H. run H. right. split; [repeat constructor | eauto].
    + apply IH in H as [(opts & argv1 & -> & -> & ->) | H]; [left | right; exact H].
      exists (a :: opts), argv1. auto.
    + left. exists [], (a :: rest). auto.
Qed.

Lemma handle_cmdarg_from_run cmdarg : forall (ms : list (hvt_module world hvt)) i m w tr r,
  handle_cmdarg_from i ms cmdarg m w = (tr, r) ->
  ((exists rc m' w', r = Ok (rc, m') w' /\ Forall (fun e => cmdarg_call e = true) tr)
   \/ (Forall (fun e => early_event e = true) tr /\ exists st, r = Stop (Exit st))).
Proof.
  induction ms as [|md ms IH]; intros i m w tr r H; simpl in H.
  - run H. left. eauto 6.
  - run H.
    + right. split; [repeat constructor | eauto].
    + left. do 3 eexists. split; [reflexivity | repeat constructor].
    + apply IH in H as [(rc & m' & w' & -> & Ht) | [Ht Hr]].
      * left. do 3 eexists. split; [reflexivity | constructor; [reflexivity | exact Ht]].
      * right. split; [constructor; [reflexivity | exact Ht] | exact Hr].
    + apply IH in H. exact H.
Qed.

Lemma handle_mem_run a w tr r :
  handle_mem E a w = (tr, r) ->
  (exists v, tr = [] /\ r = Ok v w) \/ (tr = [Errx 1 malformed_mem] /\ r = Stop (Exit 1)).
Proof.
  unfold handle_mem. destruct (sscanf_mem a) as [rc stored].
  intro H. run H; eauto.
Qed.


Ltac split_bind H Hm :=
  apply bind_inv in H;
  destruct H as [(? & Hm & ->) | (? & ? & ? & ? & Hm & H & ->)].

Lemma main_pass2_len prog : forall n argv mem m w tr r,
  (List.length argv <= n)%nat ->
  main_pass2 E prog argv mem m w = (tr, r) ->
  (exists opts argv' mem' m' w',
      r = Ok (argv', mem', m') w' /\ Forall (fun e => cmdarg_call e = true) tr
      /\ argv = opts ++ argv') \/
  (Forall (fun e => early_event e = true) tr /\ exists o, r = Stop o).
Proof.
  induction n as [|n IH]; intros argv mem m w tr r Hn H.
  - destruct argv; [|simpl in Hn; lia]. simpl in H. run H. left. exists [], []. eauto 8.
  - destruct argv as [|a rest]; [simpl in H; run H; left; exists [], []; eauto 8|].
    simpl in Hn. cbn [main_pass2] in H. run H.
    + left. exists [], (a :: rest). eauto 8.
    + left. exists [a], rest. eauto 8.
    + split_bind H Hm.
      { apply handle_mem_run in Hm as [(v & _ & Hr) | [-> _]]; [discriminate Hr|].
        right. split; [repeat constructor | eauto]. }
      apply handle_mem_run in Hm as [(v & -> & Hr) | [_ Hr]]; [|discriminate Hr].
      injection Hr as <- <-. simpl.
      split_bind H Hc.
      { apply handle_cmdarg_from_run in Hc as [(rc & m' & w' & Hr & _) | [Ht _]];
          [discriminate Hr|]. right. split; [exact Ht | eauto]. }
      apply handle_cmdarg_from_run in Hc as [(rc & m' & w' & Hr & Ht) | [_ (st & Hr)]];
        [|discriminate Hr].
      injection Hr as -> ->. cbn beta iota in H. run H.
      * right. split; [apply Forall_app_intro; [now apply cmdarg_call_early | constructor] | eauto].
      * apply IH in H; [|simpl in Hn; lia].
        destruct H as [(opts & argv' & mem' & m'' & w'' & -> & Ht2 & ->) | [Ht2 Hr]].
        -- left. exists (a :: s :: opts), argv'. do 3 eexists. split; [reflexivity|].
           split; [apply Forall_app_intro; auto | reflexivity].
        -- right. split; [apply Forall_app_intro; [now apply cmdarg_call_early | exact Ht2] | exact Hr].
      * apply IH in H; [|lia].
        destruct H as [(opts & argv' & mem' & m'' & w'' & -> & Ht2 & ->) | [Ht2 Hr]].
        -- left. exists (a :: opts), argv'. do 3 eexists. split; [reflexivity|].
           split; [apply Forall_app_intro; auto | reflexivity].
        -- right. split; [apply Forall_app_intro; [now apply cmdarg_call_early | exact Ht2] | exact Hr].
    + split_bind H Hc.
      { apply handle_cmdarg_from_run in Hc as [(rc & m' & w' & Hr & _) | [Ht _]];
          [discriminate Hr|]. right. split; [exact Ht | eauto]. }
      apply handle_cmdarg_from_run in Hc as [(rc & m' & w' & Hr & Ht) | [_ (st & Hr)]];
        [|discriminate Hr].
      injection Hr as -> ->. cbn beta iota in H. run H.
      * apply IH in H; [|lia].
        destruct H as [(opts & argv' & mem' & m'' & w'' & -> & Ht2 & ->) | [Ht2 Hr]].
        -- left. exists (a :: opts), argv'. do 3 eexists. split; [reflexivity|].
           split; [apply Forall_app_intro; auto | reflexivity].
        -- right. split; [apply Forall_app_intro; [now apply cmdarg_call_early | exact Ht2] | exact Hr].
      * right. split; [|eauto]. apply Forall_app_intro; [now apply cmdarg_call_early|].
        constructor; [|apply usage_text_early].
        unfold early_event, invalid_option. simpl. now destruct a.
Qed.

Lemma main_pass2_run prog argv mem m w tr r :
  main_pass2 E prog argv mem m w = (tr, r) ->
  (exists opts argv' mem' m' w',
      r = Ok (argv', mem', m') w' /\ Forall (fun e => cmdarg_call e = true) tr
      /\ argv = opts ++ argv') \/
  (Forall (fun e => early_event e = true) tr /\ exists o, r = Stop o).
Proof. apply (main_pass2_len prog (List.length argv)). lia. Qed.


Lemma setup_from_run : forall (ms : list (hvt_module world hvt)) i h m w tr r,
  setup_from i ms h m w = (tr, r) ->
  (exists m1 w1, r = Ok m1 w1 /\ tr = setups_ok i (List.length ms)) \/
  (exists pre md post rc,
      ms = pre ++ md :: post /\ rc <> 0 /\ r = Stop (Exit 1) /\
      tr = setups_ok i (List.length pre)
           ++ [Call (c_setup (i + List.length pre)) (Returns rc); Warnx (setup_failed md)]
           ++ usage_hint md) \/
  (exists pre md post st,
      ms = pre ++ md :: post /\ r = Stop (Exit st) /\
      tr = setups_ok i (List.length pre)
           ++ [Call (c_setup (i + List.length pre)) (Exits st)]).
Proof.
  induction ms as [|md ms IH]; intros i h m w tr r H; simpl in H.
  - run H. left. eauto.
  - run H.
    + right. right. exists [], md, ms, x. simpl. rewrite Nat.add_0_r. auto.
    + match goal with Hz : (_ =? 0) = true |- _ => apply Z.eqb_eq in Hz; subst end.
      apply IH in H as [(m1 & w1 & -> & ->) | [(pre & md' & post & rc & -> & Hrc & -> & ->)
                         | (pre & md' & post & st & -> & -> & ->)]].
      * left. do 2 eexists. split; reflexivity.
      * right. left. exists (md :: pre), md', post, rc. simpl.
        rewrite Nat.add_succ_r. auto.
      * right. right. exists (md :: pre), md', post, st. simpl.
        rewrite Nat.add_succ_r. auto.
    + right. left. exists [], md, ms, z. simpl. rewrite Nat.add_0_r.
      unfold usage_hint. rewrite Heqo. repeat split; auto.
      apply Z.eqb_neq; assumption.
    + right. left. exists [], md, ms, z. simpl. rewrite Nat.add_0_r.
      unfold usage_hint. rewrite Heqo. repeat split; auto.
      apply Z.eqb_neq; assumption.
Qed.

Lemma audit_run : forall es fail (w : world),
  audit E es fail w =
  (map (fun en => Warnx (not_attached E en)) (unattached E es),
   Ok (match unattached E es with [] => fail | _ => true end) w).
Proof.
  induction es as [|en es IH]; intros fail w; simpl; [reflexivity|].
  destruct (is_reserved E (e_type en)); simpl; [apply IH|].
  destruct (e_attached en); simpl; [apply IH|].
  unfold bind, warnx, emit. rewrite IH. simpl.
  now destruct (unattached E es).
Qed.

Lemma setup_modules_run h m w tr r :
  setup_modules E h m w = (tr, r) ->
  (exists m1 w1,
      setup_from 0 (modules E) h m w = (setups_ok 0 (List.length (modules E)), Ok m1 w1) /\
      tr = setups_ok 0 (List.length (modules E))
           ++ map (fun en => Warnx (not_attached E en)) (unattached E (mft_e m1))
           ++ match unattached E (mft_e m1) with
              | [] => []
              | _ => [Errx 1 all_attached_msg]
              end /\
      r = match unattached E (mft_e m1) with
          | [] => Ok m1 w1
          | _ => Stop (Exit 1)
          end) \/
  (exists pre md post rc,
      modules E = pre ++ md :: post /\ rc <> 0 /\ r = Stop (Exit 1) /\
      tr = setups_ok 0 (List.length pre)
           ++ [Call (c_setup (List.length pre)) (Returns rc); Warnx (setup_failed md)]
           ++ usage_hint md) \/
  (exists pre md post st,
      modules E = pre ++ md :: post /\ r = Stop (Exit st) /\
      tr = setups_ok 0 (List.length pre) ++ [Call (c_setup (List.length pre)) (Exits st)]).
Proof.
  unfold setup_modules. intro H. split_bind H Hs.
  - apply setup_from_run in Hs as [(m1 & w1 & Hr & _) | Hs]; [discriminate Hr|].
    right. exact Hs.
  - pose proof Hs as Hs'.
    apply setup_from_run in Hs as [(m1 & w1 & Hr & ->) | [Hs | Hs]];
      [| destruct Hs as (? & ? & ? & ? & _ & _ & Hr & _); discriminate Hr
       | destruct Hs as (? & ? & ? & ? & _ & Hr & _); discriminate Hr].
    injection Hr as -> ->. left. exists m1, w1. split; [exact Hs'|].
    cbv beta in H. unfold bind at 1 in H. rewrite audit_run in H.
    destruct (unattached E (mft_e m1)) eqn:Hu; simpl in H.
    + unfold ret in H. injection H as <- <-. auto.
    + unfold errx in H. injection H as <- <-. split; reflexivity.
Qed.


Lemma main_start_run h ep kend argc argv m sz w tr r :
  main_start E h ep kend argc argv m sz w = (tr, r) ->
  (exists st, tr = [Call (c_hvt_vcpu_init ep) (Exits st)] /\ r = Stop (Exit st)) \/
  (exists w1 ts o,
      setup_modules E h m w1 = (ts, Stop o) /\ r = Stop o /\
      tr = Call (c_hvt_vcpu_init ep) (Returns 0) :: ts) \/
  (exists w1 m1 w2 ab tf,
      setup_modules E h m w1 = (setups_ok 0 (List.length (modules E)), Ok m1 w2) /\
      unattached E (mft_e m1) = [] /\
      tr = Call (c_hvt_vcpu_init ep) (Returns 0)
           :: setups_ok 0 (List.length (modules E))
           ++ Call (c_hvt_boot_info_init kend argc argv m1 sz) ab :: tf /\
      ((exists st, ab = Exits st /\ tf = [] /\ r = Stop (Exit st)) \/
       (exists st, ab = Returns 0 /\ HVT_DROP_PRIVILEGES E = true /\
                   tf = [Call c_hvt_drop_privileges (Exits st)] /\ r = Stop (Exit st)) \/
       (exists al, ab = Returns 0 /\ HVT_DROP_PRIVILEGES E = true /\
                   tf = [Call c_hvt_drop_privileges (Returns 0); Call c_hvt_vcpu_loop al] /\
                   loop_end al r) \/
       (exists al, ab = Returns 0 /\ HVT_DROP_PRIVILEGES E = false /\
                   tf = [Warnx no_drop_warning1; Warnx no_drop_warning2;
                         Call c_hvt_vcpu_loop al] /\
                   loop_end al r))).
Proof.
  unfold main_start. intro H. run1 H; [left; eauto|]. cbv beta in H.
  split_bind H Hs; [right; left; eauto 8|].
  right; right.
  pose proof Hs as Hs'.
  apply setup_modules_run in Hs as [(m1 & w1 & _ & Ht & Hr) | [Hs | Hs]];
    [| destruct Hs as (? & ? & ? & ? & _ & _ & Hr & _); discriminate Hr
     | destruct Hs as (? & ? & ? & ? & _ & Hr & _); discriminate Hr].
  destruct (unattached E (mft_e m1)) eqn:Hu; [|discriminate Hr].
  injection Hr as -> ->. simpl in Ht. rewrite app_nil_r in Ht. subst.
  run H.
  - do 5 eexists. split; [exact Hs'|]. split; [exact Hu|]. split; [reflexivity|].
    left. eauto.
  - do 5 eexists. split; [exact Hs'|]. split; [exact Hu|]. split; [reflexivity|].
    right; left. eauto.
  - do 5 eexists. split; [exact Hs'|]. split; [exact Hu|]. split; [reflexivity|].
    right; right; left. eexists. repeat split; try reflexivity; simpl; eauto.
  - do 5 eexists. split; [exact Hs'|]. split; [exact Hu|]. split; [reflexivity|].
    right; right; left. eexists. repeat split; try reflexivity; simpl; eauto.
  - do 5 eexists. split; [exact Hs'|]. split; [exact Hu|]. split; [reflexivity|].
    right; right; right. eexists. repeat split; try reflexivity; simpl; eauto.
  - do 5 eexists. split; [exact Hs'|]. split; [exact Hu|]. split; [reflexivity|].
    right; right; right. eexists. repeat split; try reflexivity; simpl; eauto.
Qed.


Lemma main_init_run elf_fd elf mem_size argc argv m sz w tr r :
  main_init E elf_fd elf mem_size argc argv m sz w = (tr, r) ->
  (Forall (fun e => early_event e = true) tr /\ exists o, r = Stop o) \/
  (exists r1 r2 ms1 h ep kend rcl w1 tk,
      tr = [Call (c_sigaction SIGINT) (Returns r1);
            Call (c_sigaction SIGTERM) (Returns r2);
            Call (c_hvt_mem_size mem_size) (Returns ms1);
            Call (c_hvt_init ms1) (Returns 0);
            Call (c_elf_load elf_fd elf) (Returns 0);
            Call (c_close elf_fd) (Returns rcl)] ++ tk
      /\ r1 <> -1 /\ r2 <> -1
      /\ main_start E h ep kend argc argv m sz w1 = (tk, r)).
Proof.
  unfold main_init. intro H. run H.
  all: try (left; split; [repeat constructor | eauto]; fail).
  right. do 9 eexists. split; [reflexivity|].
  split; [now apply Z.eqb_neq|]. split; [now apply Z.eqb_neq|]. exact H.
Qed.

Lemma same_suffix {A} (l a b c d : list A) :
  l = a ++ b -> l = c ++ d -> List.length b = List.length d -> b = d.
Proof.
  intros -> H Hl. revert c H. induction a as [|x a IH]; intros c H.
  - destruct c as [|y c]; [exact H|].
    simpl in H. apply (f_equal (@List.length A)) in H.
    simpl in H. rewrite length_app in H. lia.
  - destruct c as [|y c].
    + simpl in H. apply (f_equal (@List.length A)) in H.
      simpl in H. rewrite length_app in H. lia.
    + injection H as _ H. eauto.
Qed.

Lemma main_options_run prog args opts1 argv1 elf_fd elf mem m sz w tr r :
  args = opts1 ++ argv1 ->
  main_options E prog args argv1 elf_fd elf mem m sz w = (tr, r) ->
  (Forall (fun e => early_event e = true) tr /\ exists o, r = Stop o) \/
  (exists t2 mem' m' w' tk,
      main_pass2 E prog args mem m w = (t2, Ok (argv1, mem', m') w') /\
      Forall (fun e => cmdarg_call e = true) t2 /\
      tr = t2 ++ tk /\
      main_init E elf_fd elf mem' (Z.of_nat (List.length (tl argv1))) (tl argv1) m' sz w'
      = (tk, r)).
Proof.
  intros Hargs. unfold main_options. intro H. split_bind H Hp.
  - apply main_pass2_run in Hp as [(? & ? & ? & ? & ? & Hr & _) | [Ht _]];
      [discriminate Hr|]. left. eauto.
  - pose proof Hp as Hp'.
    apply main_pass2_run in Hp as [(opts & argv' & mem' & m' & w' & Hr & Ht & Ha) | [_ [o Hr]]];
      [|discriminate Hr].
    injection Hr as -> ->. cbn beta iota in H. run H.
    + left. split; [|eauto]. rewrite app_nil_r. now apply cmdarg_call_early.
    + apply negb_false_iff, Nat.eqb_eq in Heqb.
      assert (argv' = argv1) as -> by (eapply same_suffix; eauto).
      right. do 5 eexists. eauto.
Qed.

Lemma main_run argv0 args w tr r :
  main E argv0 args w = (tr, r) ->
  (Forall (fun e => early_event e = true) tr /\ exists o, r = Stop o) \/
  (exists opts elf rest fd rcn sz rcv m1 w1 tk,
      args = opts ++ elf :: rest /\
      main_pass1 E (basename E argv0) args w = ([], Ok (elf :: rest) w) /\
      tr = [Call (c_open elf) (Returns fd);
            Call (c_elf_load_note fd elf) (Returns rcn);
            Call (c_mft_validate sz) (Returns rcv)] ++ tk /\
      main_options E (basename E argv0) args (elf :: rest) fd elf 536870912 m1 sz w1
      = (tk, r) /\
      fd <> -1 /\ rcn <> -1 /\ rcv <> -1).
Proof.
  unfold main. intro H. split_bind H Hp.
  - apply main_pass1_run in Hp as [(? & ? & Hr & _) | [Ht _]]; [discriminate Hr|].
    left. eauto.
  - pose proof Hp as Hp'.
    apply main_pass1_run in Hp as [(opts & argv1 & Hr & -> & Ha) | [_ [o Hr]]];
      [|discriminate Hr].
    injection Hr as -> ->. cbn beta iota in H. simpl.
    destruct argv1 as [|elf rest].
    + run H. left. split; [|eauto]. constructor; [reflexivity | apply usage_text_early].
    + run H.
      all: try (left; split; [repeat constructor | eauto]; fail).
      right. do 10 eexists. split; [exact Ha|]. split; [exact Hp'|].
      split; [reflexivity|]. split; [exact H|].
      repeat split; now apply Z.eqb_neq.
Qed.

(** Every run either ends early, or gets as far as closing the image. *)
Lemma main_boot_run argv0 args w tr r :
  main E argv0 args w = (tr, r) ->
  (Forall (fun e => early_event e = true) tr /\ exists o, r = Stop o) \/
  (exists opts elf residual fd rcn sz rcv m0 wa t2 mem' m' wb r1 r2 ms1 h ep kend rcl w1 tk,
      args = opts ++ elf :: residual /\
      main_pass1 E (basename E argv0) args w = ([], Ok (elf :: residual) w) /\
      main_pass2 E (basename E argv0) args 536870912 m0 wa
      = (t2, Ok (elf :: residual, mem', m') wb) /\
      Forall (fun e => cmdarg_call e = true) t2 /\
      fd <> -1 /\ rcn <> -1 /\ rcv <> -1 /\ r1 <> -1 /\ r2 <> -1 /\
      tr = [Call (c_open elf) (Returns fd);
            Call (c_elf_load_note fd elf) (Returns rcn);
            Call (c_mft_validate sz) (Returns rcv)]
           ++ t2
           ++ [Call (c_sigaction SIGINT) (Returns r1);
               Call (c_sigaction SIGTERM) (Returns r2);
               Call (c_hvt_mem_size mem') (Returns ms1);
               Call (c_hvt_init ms1) (Returns 0);
               Call (c_elf_load fd elf) (Returns 0);
               Call (c_close fd) (Returns rcl)]
           ++ tk /\
      main_start E h ep kend (Z.of_nat (List.length residual)) residual m' sz w1 = (tk, r)).
Proof.
  intro H. apply main_run in H as [H | H]; [left; exact H|].
  destruct H as (opts & elf & rest & fd & rcn & sz & rcv & m1 & w1 & tk
                 & Ha & Hp1 & -> & H & Hfd & Hrcn & Hrcv).
  apply (main_options_run _ _ _ _ _ _ _ _ _ _ _ _ Ha) in H as [[Ht Hr] | H].
  { left. split; [|exact Hr]. repeat (constructor; [reflexivity|]). exact Ht. }
  destruct H as (t2 & mem' & m' & w' & tk' & Hp2 & Ht2 & -> & H).
  apply main_init_run in H as [[Ht Hr] | H].
  { left. split; [|exact Hr]. repeat (constructor; [reflexivity|]).
    apply Forall_app_intro; [now apply cmdarg_call_early | exact Ht]. }
  destruct H as (r1 & r2 & ms1 & h & ep & kend & rcl & w2 & tk'' & -> & Hr1 & Hr2 & H).
  right. exists opts, elf, rest, fd, rcn, sz, rcv, m1, w1, t2, mem', m', w'.
  exists r1, r2, ms1, h, ep, kend, rcl, w2, tk''.
  repeat (split; [assumption|]). split; [reflexivity | exact H].
Qed.


(** *** Where an event can sit in a log *)

Lemma split_first (P : event -> bool) : forall K x L pre d post,
  Forall (fun e => P e = false) K -> P x = true ->
  Forall (fun e => P e = false) L -> P d = true ->
  K ++ x :: L = pre ++ d :: post ->
  pre = K /\ d = x /\ post = L.
Proof.
  induction K as [|k K IH]; intros x L pre d post HK Hx HL Hd H.
  - destruct pre as [|y pre]; simpl in H.
    + injection H as -> ->. auto.
    + injection H as -> ->. rewrite Forall_forall in HL.
      specialize (HL d). rewrite in_app_iff in HL. simpl in HL.
      rewrite HL in Hd by auto. discriminate.
  - inversion HK as [|? ? Hk HK']; subst. destruct pre as [|y pre]; simpl in H.
    + injection H as -> _. congruence.
    + injection H as -> H. apply IH in H as (-> & -> & ->); auto.
Qed.

Lemma no_split (P : event -> bool) T pre d post :
  Forall (fun e => P e = false) T -> P d = true -> T = pre ++ d :: post -> False.
Proof.
  intros HT Hd ->. rewrite Forall_forall in HT. specialize (HT d).
  rewrite in_app_iff in HT. simpl in HT. rewrite HT in Hd by auto. discriminate.
Qed.

Lemma Forall_class (P Q : event -> bool) t :
  (forall e, P e = true -> Q e = false) ->
  Forall (fun e => P e = true) t -> Forall (fun e => Q e = false) t.
Proof. intro HPQ. apply Forall_impl. exact HPQ. Qed.

Lemma setups_ok_class (Q : event -> bool) i n :
  (forall j, Q (Call (c_setup j) (Returns 0)) = true) ->
  Forall (fun e => Q e = true) (setups_ok i n).
Proof.
  intro HQ. apply Forall_forall. intros e He.
  apply in_map_iff in He as (j & <- & _). apply HQ.
Qed.

Lemma setups_ok_none (Q : event -> bool) i n :
  (forall j, Q (Call (c_setup j) (Returns 0)) = false) ->
  Forall (fun e => Q e = false) (setups_ok i n).
Proof.
  intro HQ. apply Forall_forall. intros e He.
  apply in_map_iff in He as (j & <- & _). apply HQ.
Qed.

Lemma setup_modules_events h m w ts r :
  setup_modules E h m w = (ts, r) -> Forall (fun e => setup_event e = true) ts.
Proof.
  intro H. apply setup_modules_run in H
    as [(m1 & w1 & _ & -> & _) | [(pre & md & post & rc & _ & _ & _ & ->)
                                 | (pre & md & post & st & _ & _ & ->)]].
  - repeat (apply Forall_app_intro).
    + now apply setups_ok_class.
    + apply Forall_forall. intros e He. apply in_map_iff in He as (en & <- & _). reflexivity.
    + destruct (unattached E (mft_e m1)); repeat constructor.
  - repeat (apply Forall_app_intro).
    + now apply setups_ok_class.
    + repeat constructor.
    + unfold usage_hint. destruct (ops_usage (ops md)); repeat constructor.
  - repeat (apply Forall_app_intro).
    + now apply setups_ok_class.
    + repeat constructor.
Qed.

Lemma main_start_events h ep kend argc argv m sz w tk r :
  main_start E h ep kend argc argv m sz w = (tk, r) ->
  Forall (fun e => start_event e = true) tk.
Proof.
  intro H. apply main_start_run in H
    as [(st & -> & _) | [(w1 & ts & o & Hs & _ & ->) | (w1 & m1 & w2 & ab & tf & _ & _ & -> & Hf)]].
  - repeat constructor.
  - constructor; [reflexivity|]. apply setup_modules_events in Hs.
    revert Hs. apply Forall_impl. intros e He. unfold start_event. rewrite He.
    now destruct e as [[] ?| | | |].
  - constructor; [reflexivity|]. apply Forall_app_intro; [now apply setups_ok_class|].
    constructor; [reflexivity|].
    destruct Hf as [(st & _ & -> & _) | [(st & _ & _ & -> & _)
                   | [(al & _ & _ & -> & _) | (al & _ & _ & -> & _)]]];
      repeat constructor.
Qed.


Lemma split_skip (P : event -> bool) : forall K T pre d post,
  Forall (fun e => P e = false) K -> P d = true ->
  K ++ T = pre ++ d :: post ->
  exists pre', pre = K ++ pre' /\ T = pre' ++ d :: post.
Proof.
  induction K as [|k K IH]; intros T pre d post HK Hd H.
  - exists pre. auto.
  - inversion HK as [|? ? Hk HK']; subst. destruct pre as [|y pre]; simpl in H.
    + injection H as -> _. congruence.
    + injection H as -> H. apply IH in H as (pre' & -> & ->); auto.
      exists pre'. auto.
Qed.

Ltac classes :=
  repeat first
    [ assumption
    | apply Forall_nil
    | apply Forall_cons; [reflexivity|]
    | apply Forall_app_intro
    | (eapply Forall_class; [|eassumption]; intros [[] []| | | |]; simpl; congruence)
    | (apply setups_ok_none; reflexivity) ].

Ltac nosplit P Hs :=
  exfalso;
  lazymatch type of Hs with
  | ?T = ?pre ++ ?d :: ?post =>
      apply (no_split P T pre d post); [classes | reflexivity | exact Hs]
  end.



Lemma main_start_drop h ep kend argc argv m sz w tk r pre a post :
  main_start E h ep kend argc argv m sz w = (tk, r) ->
  tk = pre ++ Call c_hvt_drop_privileges a :: post ->
  exists m1,
    pre = Call (c_hvt_vcpu_init ep) (Returns 0)
          :: setups_ok 0 (List.length (modules E))
          ++ [Call (c_hvt_boot_info_init kend argc argv m1 sz) (Returns 0)] /\
    unattached E (mft_e m1) = [] /\
    (post = [] \/ exists x, post = [Call c_hvt_vcpu_loop x]).
Proof.
  intros H Hsplit.
  apply main_start_run in H
    as [(st & -> & _) | [(w1 & ts & o & Hs & _ & ->) | (w1 & m1 & w2 & ab & tf & _ & Hu & -> & Hf)]].
  - nosplit is_drop Hsplit.
  - apply setup_modules_events in Hs. nosplit is_drop Hsplit.
  - destruct Hf as [(st & -> & -> & _) | [(st & -> & _ & -> & _)
                   | [(al & -> & _ & -> & _) | (al & -> & _ & -> & _)]]].
    + nosplit is_drop Hsplit.
    + exists m1.
      match type of Hsplit with
      | ?v :: ?S ++ [?b; ?d] = _ =>
          assert (Hshape : (v :: S ++ [b]) ++ d :: [] = pre ++ Call c_hvt_drop_privileges a :: post)
            by (rewrite <- Hsplit; simpl; rewrite <- app_assoc; reflexivity)
      end.
      apply (split_first is_drop) in Hshape as (-> & _ & ->);
        [auto | classes | reflexivity | classes | reflexivity].
    + exists m1.
      match type of Hsplit with
      | ?v :: ?S ++ [?b; ?d; ?l] = _ =>
          assert (Hshape : (v :: S ++ [b]) ++ d :: [l] = pre ++ Call c_hvt_drop_privileges a :: post)
            by (rewrite <- Hsplit; simpl; rewrite <- app_assoc; reflexivity)
      end.
      apply (split_first is_drop) in Hshape as (-> & _ & ->);
        [eauto | classes | reflexivity | classes | reflexivity].
    + nosplit is_drop Hsplit.
Qed.

Lemma main_start_unattached h ep kend argc argv m sz w tk r en :
  main_start E h ep kend argc argv m sz w = (tk, r) ->
  In (Warnx (not_attached E en)) tk ->
  r = Stop (Exit 1) /\ Forall (fun e => is_drop e = false) tk.
Proof.
  intros H Hin.
  apply main_start_run in H
    as [(st & -> & _) | [(w1 & ts & o & Hs & -> & ->) | (w1 & m1 & w2 & ab & tf & _ & Hu & -> & Hf)]].
  - destruct Hin as [Hin|[]]. discriminate Hin.
  - pose proof (setup_modules_events _ _ _ _ _ Hs) as Hev.
    split; [|classes].
    destruct Hin as [Hin|Hin]; [discriminate Hin|].
    apply setup_modules_run in Hs
      as [(m1 & w1' & _ & _ & Hr) | [(pre & md & post & rc & _ & _ & Hr & _)
                                    | (pre & md & post & st & _ & _ & ->)]].
    + destruct (unattached E (mft_e m1)); [discriminate Hr | congruence].
    + congruence.
    + exfalso. apply in_app_iff in Hin as [Hin|[Hin|[]]]; [|discriminate Hin].
      apply in_map_iff in Hin as (j & Hj & _). discriminate Hj.
  - exfalso. destruct Hin as [Hin|Hin]; [discriminate Hin|].
    apply in_app_iff in Hin as [Hin|[Hin|Hin]]; [| discriminate Hin |].
    + apply in_map_iff in Hin as (j & Hj & _). discriminate Hj.
    + destruct Hf as [(st & -> & -> & _) | [(st & -> & _ & -> & _)
                     | [(al & -> & _ & -> & _) | (al & -> & _ & -> & _)]]];
        simpl in Hin; intuition discriminate.
Qed.

Lemma main_start_boot_info h ep kend argc argv m sz w tk r kend' argc' argv' m' sz' a :
  main_start E h ep kend argc argv m sz w = (tk, r) ->
  In (Call (c_hvt_boot_info_init kend' argc' argv' m' sz') a) tk ->
  argc' = argc /\ argv' = argv.
Proof.
  intros H Hin.
  apply main_start_run in H
    as [(st & -> & _) | [(w1 & ts & o & Hs & -> & ->) | (w1 & m1 & w2 & ab & tf & _ & Hu & -> & Hf)]].
  - destruct Hin as [Hin|[]]. discriminate Hin.
  - exfalso. destruct Hin as [Hin|Hin]; [discriminate Hin|].
    apply setup_modules_events in Hs. rewrite Forall_forall in Hs.
    apply Hs in Hin. discriminate Hin.
  - destruct Hin as [Hin|Hin]; [discriminate Hin|].
    apply in_app_iff in Hin as [Hin|[Hin|Hin]].
    + apply in_map_iff in Hin as (j & Hj & _). discriminate Hj.
    + injection Hin as _ -> -> _ _ _. auto.
    + exfalso.
      destruct Hf as [(st & -> & -> & _) | [(st & -> & _ & -> & _)
                     | [(al & -> & _ & -> & _) | (al & -> & _ & -> & _)]]];
        simpl in Hin; intuition discriminate.
Qed.


(** C1: in every run, whatever precedes the call of [hvt_drop_privileges]
    is exactly: [open], [elf_load_note] and [mft_validate], all successful;
    the calls into the modules made while parsing options; both
    [sigaction]s, successful; [hvt_mem_size], [hvt_init], [elf_load],
    [close], [hvt_vcpu_init]; the [setup] of every module, each returning
    0; and [hvt_boot_info_init], given a manifest without unattached
    devices.  Nothing but [hvt_vcpu_loop] follows it.  And a run in which
    [setup_modules] reports an unattached device exits with status 1
    without calling [hvt_drop_privileges]. *)
Theorem privilege_drop_after_boot :
  forall argv0 args w tr r,
    main E argv0 args w = (tr, r) ->
    (forall pre a post,
        tr = pre ++ Call c_hvt_drop_privileges a :: post ->
        exists elf fd rcn sz rcv opts r1 r2 ms0 ms1 rcl ep kend residual m1,
          pre = [Call (c_open elf) (Returns fd);
                 Call (c_elf_load_note fd elf) (Returns rcn);
                 Call (c_mft_validate sz) (Returns rcv)]
                ++ opts
                ++ [Call (c_sigaction SIGINT) (Returns r1);
                    Call (c_sigaction SIGTERM) (Returns r2);
                    Call (c_hvt_mem_size ms0) (Returns ms1);
                    Call (c_hvt_init ms1) (Returns 0);
                    Call (c_elf_load fd elf) (Returns 0);
                    Call (c_close fd) (Returns rcl);
                    Call (c_hvt_vcpu_init ep) (Returns 0)]
                ++ setups_ok 0 (List.length (modules E))
                ++ [Call (c_hvt_boot_info_init kend (Z.of_nat (List.length residual))
                                               residual m1 sz) (Returns 0)] /\
          fd <> -1 /\ rcn <> -1 /\ rcv <> -1 /\ r1 <> -1 /\ r2 <> -1 /\
          Forall (fun e => cmdarg_call e = true) opts /\
          unattached E (mft_e m1) = [] /\
          (post = [] \/ exists x, post = [Call c_hvt_vcpu_loop x])) /\
    (forall en,
        In (Warnx (not_attached E en)) tr ->
        r = Stop (Exit 1) /\ forall a, ~ In (Call c_hvt_drop_privileges a) tr).
Proof.
  intros argv0 args w tr r H.
  apply main_boot_run in H as [[Ht _] | H].
  { split.
    - intros pre a post Hsplit. nosplit is_drop Hsplit.
    - intros en Hin. rewrite Forall_forall in Ht. apply Ht in Hin. discriminate Hin. }
  destruct H as (opts & elf & residual & fd & rcn & sz & rcv & m0 & wa & t2 & mem' & m'
                 & wb & r1 & r2 & ms1 & h & ep & kend & rcl & w1 & tk
                 & _ & _ & _ & Ht2 & Hfd & Hrcn & Hrcv & Hr1 & Hr2 & -> & Hstart).
  split.
  - intros pre a post Hsplit.
    match type of Hsplit with
    | ?A ++ ?T ++ ?B ++ ?K = _ =>
        assert (Hshape : (A ++ T ++ B) ++ K = pre ++ Call c_hvt_drop_privileges a :: post)
          by (rewrite <- Hsplit; rewrite <- !app_assoc; reflexivity)
    end.
    apply (split_skip is_drop) in Hshape as (pre' & -> & Htk); [| classes | reflexivity].
    destruct (main_start_drop _ _ _ _ _ _ _ _ _ _ _ _ _ Hstart Htk) as (m1 & -> & Hu & Hpost).
    exists elf, fd, rcn, sz, rcv, t2, r1, r2, mem', ms1, rcl, ep, kend, residual, m1.
    split; [rewrite <- !app_assoc; reflexivity|].
    repeat (split; [assumption|]). exact Hpost.
  - intros en Hin.
    apply in_app_iff in Hin as [Hin|Hin]; [simpl in Hin; intuition discriminate|].
    apply in_app_iff in Hin as [Hin|Hin].
    { rewrite Forall_forall in Ht2. apply Ht2 in Hin. discriminate Hin. }
    apply in_app_iff in Hin as [Hin|Hin]; [simpl in Hin; intuition discriminate|].
    destruct (main_start_unattached _ _ _ _ _ _ _ _ _ _ _ Hstart Hin) as [-> Hnd].
    split; [reflexivity|]. intros a Ha.
    assert (Hall : Forall (fun e => is_drop e = false)
                     ([Call (c_open elf) (Returns fd);
                       Call (c_elf_load_note fd elf) (Returns rcn);
                       Call (c_mft_validate sz) (Returns rcv)] ++
                      t2 ++
                      [Call (c_sigaction SIGINT) (Returns r1);
                       Call (c_sigaction SIGTERM) (Returns r2);
                       Call (c_hvt_mem_size mem') (Returns ms1);
                       Call (c_hvt_init ms1) (Returns 0);
                       Call (c_elf_load fd elf) (Returns 0);
                       Call (c_close fd) (Returns rcl)] ++ tk)) by classes.
    rewrite Forall_forall in Hall. apply Hall in Ha. discriminate Ha.
Qed.



Lemma handle_cmdarg_from_claim t :
  forall (pre : list (hvt_module world hvt)) i p rest hp m w tr r,
    ops_handle_cmdarg (ops p) = Some hp ->
    (forall m w, exists m' w', hp (Some t) m w = Returns (0, m', w')) ->
    handle_cmdarg_from i (pre ++ p :: rest) (Some t) m w = (tr, r) ->
    (forall j c a, In (Call (c_handle_cmdarg j c) a) tr ->
                   (i <= j <= i + List.length pre)%nat) /\
    ((exists k m' w' tr',
         (k <= List.length pre)%nat /\
         tr = tr' ++ [Call (c_handle_cmdarg (i + k) (Some t)) (Returns 0)] /\
         r = Ok (0, m') w') \/
     (exists k st tr',
         (k < List.length pre)%nat /\
         tr = tr' ++ [Call (c_handle_cmdarg (i + k) (Some t)) (Exits st)] /\
         r = Stop (Exit st))) /\
    ((forall md hc m w,
         In md pre -> ops_handle_cmdarg (ops md) = Some hc ->
         exists rc m' w', hc (Some t) m w = Returns (rc, m', w') /\ rc <> 0) ->
     exists m' w' tr',
       tr = tr' ++ [Call (c_handle_cmdarg (i + List.length pre) (Some t)) (Returns 0)] /\
       r = Ok (0, m') w').
Proof.
  induction pre as [|md pre IH]; intros i p rest hp m w tr r Hp Hclaim H.
  - simpl in H. rewrite Hp in H. destruct (Hclaim m w) as (m' & w' & Hhp).
    unfold bind, call in H. rewrite Hhp in H. simpl in H. injection H as <- <-.
    split; [|split].
    + intros j c a [Hin|[]]. injection Hin as <- _ _. simpl. lia.
    + left. exists 0%nat, m', w', []. rewrite Nat.add_0_r. simpl. auto.
    + intros _. exists m', w', []. rewrite Nat.add_0_r. auto.
  - cbn [app handle_cmdarg_from] in H.
    destruct (ops_handle_cmdarg (ops md)) as [hc|] eqn:Hmd.
    + run H.
      * (* the module ends the process *)
        split; [|split].
        -- intros j c a [Hin|[]]. injection Hin as <- _ _. simpl. lia.
        -- right. exists 0%nat, x, []. rewrite Nat.add_0_r. simpl. split; [lia | auto].
        -- intros Hdecl. destruct (Hdecl md hc m w (or_introl eq_refl) Hmd)
             as (rc & m' & w' & Hret & _). congruence.
      * (* the module claims the token *)
        apply Z.eqb_eq in Heqb. subst.
        split; [|split].
        -- intros j c a [Hin|[]]. injection Hin as <- _ _. simpl. lia.
        -- left. exists 0%nat, m0, x0, []. rewrite Nat.add_0_r. simpl. split; [lia | auto].
        -- intros Hdecl. destruct (Hdecl md hc m w (or_introl eq_refl) Hmd)
             as (rc & m' & w' & Hret & Hrc). congruence.
      * (* the module declines *)
        destruct (IH (S i) p rest hp _ _ _ _ Hp Hclaim H) as (Hidx & Hend & Hfirst).
        split; [|split].
        -- intros j c a [Hin|Hin]; [injection Hin as <- _ _; simpl; lia|].
           apply Hidx in Hin. simpl. lia.
        -- destruct Hend as [(k & m' & w' & tr' & Hk & -> & ->) | (k & st & tr' & Hk & -> & ->)].
           ++ left. exists (S k), m', w', (Call (c_handle_cmdarg i (Some t)) (Returns z) :: tr').
              rewrite Nat.add_succ_r. simpl. split; [lia | auto].
           ++ right. exists (S k), st, (Call (c_handle_cmdarg i (Some t)) (Returns z) :: tr').
              rewrite Nat.add_succ_r. simpl. split; [lia | auto].
        -- intros Hdecl. destruct Hfirst as (m' & w' & tr' & -> & ->).
           { intros md' hc' m' w' Hin. apply Hdecl. now right. }
           exists m', w', (Call (c_handle_cmdarg i (Some t)) (Returns z) :: tr').
           simpl. rewrite Nat.add_succ_r. auto.
    + destruct (IH (S i) p rest hp _ _ _ _ Hp Hclaim H) as (Hidx & Hend & Hfirst).
      split; [|split].
      * intros j c a Hin. apply Hidx in Hin. simpl. lia.
      * destruct Hend as [(k & m' & w' & tr' & Hk & -> & ->) | (k & st & tr' & Hk & -> & ->)].
        -- left. exists (S k), m', w', tr'. rewrite Nat.add_succ_r. simpl. split; [lia | auto].
        -- right. exists (S k), st, tr'. rewrite Nat.add_succ_r. simpl. split; [lia | auto].
      * intros Hdecl. destruct Hfirst as (m' & w' & tr' & -> & ->).
        { intros md' hc' m' w' Hin. apply Hdecl. now right. }
        exists m', w', tr'. simpl. rewrite Nat.add_succ_r. auto.
Qed.

(** C4: let [p] stand before [q] in the module table, each of them ready to
    claim the token [t].  Then [handle_cmdarg] never calls [q] for it; the
    token is claimed by [p] or by a module before [p] (unless one of those
    ends the process); and it is [p] that claims it when no module before
    [p] does. *)
Theorem first_claim_wins :
  forall pre p mid q post hp hq t m w tr r,
    modules E = pre ++ p :: mid ++ q :: post ->
    ops_handle_cmdarg (ops p) = Some hp ->
    ops_handle_cmdarg (ops q) = Some hq ->
    (forall m w, exists m' w', hp (Some t) m w = Returns (0, m', w')) ->
    (forall m w, exists m' w', hq (Some t) m w = Returns (0, m', w')) ->
    handle_cmdarg E (Some t) m w = (tr, r) ->
    (forall c a,
        ~ In (Call (c_handle_cmdarg (List.length pre + S (List.length mid)) c) a) tr) /\
    ((exists k m' w' tr',
         (k <= List.length pre)%nat /\
         tr = tr' ++ [Call (c_handle_cmdarg k (Some t)) (Returns 0)] /\
         r = Ok (0, m') w') \/
     (exists k st tr',
         (k < List.length pre)%nat /\
         tr = tr' ++ [Call (c_handle_cmdarg k (Some t)) (Exits st)] /\
         r = Stop (Exit st))) /\
    ((forall md hc m w,
         In md pre -> ops_handle_cmdarg (ops md) = Some hc ->
         exists rc m' w', hc (Some t) m w = Returns (rc, m', w') /\ rc <> 0) ->
     exists m' w' tr',
       tr = tr' ++ [Call (c_handle_cmdarg (List.length pre) (Some t)) (Returns 0)] /\
       r = Ok (0, m') w').
Proof.
  intros pre p mid q post hp hq t m w tr r Hms Hp _ Hclaim _ H.
  unfold handle_cmdarg in H. rewrite Hms in H.
  destruct (handle_cmdarg_from_claim t pre 0 p (mid ++ q :: post) hp m w tr r Hp Hclaim H)
    as (Hidx & Hend & Hfirst).
  split; [|split].
  - intros c a Hin. apply Hidx in Hin. lia.
  - exact Hend.
  - exact Hfirst.
Qed.

(** C5: once every [setup] has succeeded, leaving the manifest [m1],
    [setup_modules] prints one diagnostic for each entry of [m1] whose type
    is below [MFT_RESERVED_FIRST] and whose [attached] flag is clear, all of
    them and nothing else, and then exits with status 1 if there was one,
    and returns otherwise. *)
Theorem audit_reports_unattached :
  forall h m w t1 m1 w1,
    setup_from 0 (modules E) h m w = (t1, Ok m1 w1) ->
    setup_modules E h m w =
    (t1 ++ map (fun en => Warnx (not_attached E en)) (unattached E (mft_e m1))
        ++ match unattached E (mft_e m1) with
           | [] => []
           | _ => [Errx 1 all_attached_msg]
           end,
     match unattached E (mft_e m1) with
     | [] => Ok m1 w1
     | _ => Stop (Exit 1)
     end) /\
    (forall en,
        In en (unattached E (mft_e m1)) <->
        In en (mft_e m1) /\ e_type en < MFT_RESERVED_FIRST E /\ e_attached en = false).
Proof.
  intros h m w t1 m1 w1 H. split.
  - unfold setup_modules, bind. rewrite H, audit_run.
    destruct (unattached E (mft_e m1)); reflexivity.
  - intro en. unfold unattached. rewrite filter_In, andb_true_iff, !negb_true_iff.
    unfold is_reserved. rewrite Z.leb_gt. tauto.
Qed.

(** C6: with [--help] first on the command line [main] prints the usage and
    exits with status 1; with [--version] first it prints name and version
    and exits with status 0; in neither case is anything opened. *)
Theorem terminal_options_before_open :
  forall argv0 rest w,
    main E argv0 ("--help" :: rest) w = (usage_text E (basename E argv0), Stop (Exit 1)) /\
    main E argv0 ("--version" :: rest) w
    = ([Fprintf (basename E argv0 ++ " " ++ SOLO5_VERSION E ++ nl)], Stop (Exit 0)) /\
    (forall path a, ~ In (Call (c_open path) a) (usage_text E (basename E argv0))).
Proof.
  intros argv0 rest w. split; [reflexivity|]. split; [reflexivity|].
  intros path a Hin.
  unfold usage_text in Hin. rewrite !in_app_iff in Hin.
  destruct Hin as [Hin|[Hin|[Hin|[Hin|Hin]]]].
  - simpl in Hin. intuition discriminate.
  - apply in_map_iff in Hin as (md & Hmd & _). discriminate Hmd.
  - simpl in Hin. intuition discriminate.
  - apply in_flat_map in Hin as (md & _ & Hin).
    destruct (ops_usage (ops md)); simpl in Hin; intuition discriminate.
  - destruct (existsb _ _); simpl in Hin; intuition discriminate.
Qed.

(** C8: [setup_modules] calls [setup] module by module in table order.  If
    all return 0 the second loop runs after the last of them.  Otherwise
    the first module whose [setup] fails is the last one called: "Module
    `NAME' setup failed" is printed with that module's name, then
    "Please check you have correctly specified:" with the module's usage
    text if it has one, and the process exits with status 1 (or the
    module has ended the process itself); nothing of the second loop is
    printed. *)
Theorem setup_modules_in_table_order :
  forall h m w tr r,
    setup_modules E h m w = (tr, r) ->
    (exists m1 w1,
        setup_from 0 (modules E) h m w = (setups_ok 0 (List.length (modules E)), Ok m1 w1) /\
        tr = setups_ok 0 (List.length (modules E))
             ++ map (fun en => Warnx (not_attached E en)) (unattached E (mft_e m1))
             ++ match unattached E (mft_e m1) with
                | [] => []
                | _ => [Errx 1 all_attached_msg]
                end /\
        r = match unattached E (mft_e m1) with
            | [] => Ok m1 w1
            | _ => Stop (Exit 1)
            end) \/
    (exists pre md post rc,
        modules E = pre ++ md :: post /\ rc <> 0 /\ r = Stop (Exit 1) /\
        tr = setups_ok 0 (List.length pre)
             ++ [Call (c_setup (List.length pre)) (Returns rc);
                 Warnx ("Module `" ++ m_name md ++ "' setup failed")]
             ++ match ops_usage (ops md) with
                | Some u => [Warnx ("Please check you have correctly specified:"
                                    ++ String "010" ("    " ++ u))]
                | None => []
                end) \/
    (exists pre md post st,
        modules E = pre ++ md :: post /\ r = Stop (Exit st) /\
        tr = setups_ok 0 (List.length pre) ++ [Call (c_setup (List.length pre)) (Exits st)]).
Proof.
  intros h m w tr r H. now apply setup_modules_run.
Qed.

(** ** What the defects amount to in general *)

(** A negative memory size is accepted: the sign survives neither the
    store into [mem] nor the test. *)
Lemma handle_mem_negative : forall ds (w : world),
  ds <> "" -> all_digits ds = true ->
  0 < scan_digits ds 0 < 2 ^ 44 ->
  handle_mem E ("--mem=-" ++ ds) w = ([], Ok (2 ^ 64 - scan_digits ds 0 * 2 ^ 20) w).
Proof.
  intros ds w Hne Hd Hn.
  unfold handle_mem, sscanf_mem.
  cbn [append match_literal Ascii.eqb Bool.eqb].
  assert (Hz : scan_zd (String "-" ds) = ScanValue (saturate (- scan_digits ds 0))).
  { unfold scan_zd. cbn [skip_space isspace]. simpl.
    destruct ds as [|c ds]; [congruence|]. simpl in Hd.
    apply andb_true_iff in Hd as [Hc _]. simpl has_digit. now rewrite Hc. }
  rewrite Hz.
  set (n := scan_digits ds 0) in *.
  assert (Hsat : saturate (- n) = - n).
  { unfold saturate, SSIZE_MAX, SSIZE_MIN, SIZE_BITS. simpl Z.sub. lia. }
  rewrite Hsat.
  assert (Hsh : shl20 (to_size_t (- n)) = 2 ^ 64 - n * 2 ^ 20).
  { unfold shl20, to_size_t, SIZE_BITS. rewrite Z.shiftl_mul_pow2 by lia.
    rewrite Z.mul_mod_idemp_l by lia.
    replace (- n * 2 ^ 20) with ((2 ^ 64 - n * 2 ^ 20) + (-1) * 2 ^ 64) by ring.
    rewrite Z_mod_plus_full. apply Z.mod_small. lia. }
  rewrite Hsh.
  replace (2 ^ 64 - n * 2 ^ 20 <=? 0) with false; [reflexivity|].
  symmetry. apply Z.leb_gt. lia.
Qed.

Lemma handle_cmdarg_from_shows c :
  forall (ms : list (hvt_module world hvt)) i m w tr r,
    handle_cmdarg_from i ms c m w = (tr, r) ->
    forall j c' b, In (Call (c_handle_cmdarg j c') b) tr -> c' = c.
Proof.
  induction ms as [|md ms IH]; intros i m w tr r H j c' b Hin; simpl in H.
  - run H. destruct Hin.
  - run H.
    + destruct Hin as [Hin|[]]. now injection Hin as _ <- _.
    + destruct Hin as [Hin|[]]. now injection Hin as _ <- _.
    + destruct Hin as [Hin|Hin]; [now injection Hin as _ <- _ | eauto].
    + eauto.
Qed.

(** The second scan shows the modules arguments of the vector (or the
    terminating null) only. *)
Lemma main_pass2_shows prog : forall n argv mem m w tr r,
  (List.length argv <= n)%nat ->
  main_pass2 E prog argv mem m w = (tr, r) ->
  forall j c b, In (Call (c_handle_cmdarg j c) b) tr ->
                c = None \/ exists x, c = Some x /\ In x argv.
Proof.
  induction n as [|n IH]; intros argv mem m w tr r Hn H j c b Hin.
  - destruct argv; [|simpl in Hn; lia]. simpl in H. run H. destruct Hin.
  - destruct argv as [|a rest]; [simpl in H; run H; destruct Hin|].
    simpl in Hn. cbn [main_pass2] in H. run H; try (destruct Hin; fail).
    + split_bind H Hm.
      { apply handle_mem_run in Hm as [(v & _ & Hr) | [-> _]]; [discriminate Hr|].
        destruct Hin as [Hin|[]]. discriminate Hin. }
      apply handle_mem_run in Hm as [(v & -> & Hr) | [_ Hr]]; [|discriminate Hr].
      injection Hr as <- <-. simpl in Hin.
      assert (Hhd : forall c', c' = hd_error rest ->
                               c' = None \/ exists x, c' = Some x /\ In x (a :: rest)).
      { intros c' ->. destruct rest as [|y rest]; [now left|].
        right. exists y. simpl. auto. }
      split_bind H Hc.
      { apply Hhd. eapply handle_cmdarg_from_shows; eauto. }
      apply in_app_iff in Hin as [Hin|Hin].
      { apply Hhd. eapply handle_cmdarg_from_shows; eauto. }
      apply handle_cmdarg_from_run in Hc as [(rc & m1 & w1 & Hr & _) | [_ (st & Hr)]];
        [|discriminate Hr].
      injection Hr as -> ->. cbn beta iota in H. run H.
      * destruct Hin.
      * eapply IH in H; [|simpl in Hn; lia|exact Hin].
        destruct H as [Hc'|(y & Hy & Hiny)]; [now left|].
        right. exists y. simpl. auto.
      * eapply IH in H; [|lia|exact Hin].
        destruct H as [Hc'|(y & Hy & Hiny)]; [now left|].
        right. exists y. simpl. auto.
    + split_bind H Hc.
      { right. exists a. split; [|now left].
        eapply handle_cmdarg_from_shows; eauto. }
      apply in_app_iff in Hin as [Hin|Hin].
      { right. exists a. split; [|now left].
        eapply handle_cmdarg_from_shows; eauto. }
      apply handle_cmdarg_from_run in Hc as [(rc & m1 & w1 & Hr & _) | [_ (st & Hr)]];
        [|discriminate Hr].
      injection Hr as -> ->. cbn beta iota in H. run H.
      * eapply IH in H; [|lia|exact Hin].
        destruct H as [Hc'|(y & Hy & Hiny)]; [now left|].
        right. exists y. simpl. auto.
      * exfalso. destruct Hin as [Hin|Hin]; [discriminate Hin|].
        pose proof (usage_text_early prog) as Hu. rewrite Forall_forall in Hu.
        clear - Hin. unfold usage_text in Hin. rewrite !in_app_iff in Hin.
        destruct Hin as [Hin|[Hin|[Hin|[Hin|Hin]]]].
        -- simpl in Hin. intuition discriminate.
        -- apply in_map_iff in Hin as (md & Hmd & _). discriminate Hmd.
        -- simpl in Hin. intuition discriminate.
        -- apply in_flat_map in Hin as (md & _ & Hin).
           destruct (ops_usage (ops md)); simpl in Hin; intuition discriminate.
        -- destruct (existsb _ _); simpl in Hin; intuition discriminate.
Qed.

(** A memory option is never shown to the modules, unless the same text
    comes again further on. *)
Lemma mem_option_never_offered prog a rest mem m w tr r :
  String.prefix "--mem=" a = true ->
  ~ In a rest ->
  main_pass2 E prog (a :: rest) mem m w = (tr, r) ->
  forall j b, ~ In (Call (c_handle_cmdarg j (Some a)) b) tr.
Proof.
  intros Hpre Hnot H j b Hin.
  assert (Hopt : is_option a = true /\ String.eqb "--" a = false).
  { destruct a as [|c1 a]; [discriminate Hpre|]. cbn [String.prefix] in Hpre.
    destruct (ascii_dec "-" c1) as [<-|]; [|discriminate Hpre].
    destruct a as [|c2 a]; [discriminate Hpre|]. cbn [String.prefix] in Hpre.
    destruct (ascii_dec "-" c2) as [<-|]; [|discriminate Hpre].
    destruct a as [|c3 a]; [discriminate Hpre|]. now split. }
  destruct Hopt as [Ho Hd].
  cbn [main_pass2] in H. rewrite Ho, Hd, Hpre in H. simpl negb in H. cbv iota in H.
  split_bind H Hm.
  { apply handle_mem_run in Hm as [(v & _ & Hr) | [-> _]]; [discriminate Hr|].
    destruct Hin as [Hin|[]]. discriminate Hin. }
  apply handle_mem_run in Hm as [(v & -> & Hr) | [_ Hr]]; [|discriminate Hr].
  injection Hr as <- <-. simpl in Hin.
  assert (Hhd : Some a <> hd_error rest).
  { destruct rest as [|y rest]; [discriminate|]. simpl. intros [= <-]. apply Hnot. now left. }
  split_bind H Hc.
  { apply Hhd. eapply handle_cmdarg_from_shows; eauto. }
  apply in_app_iff in Hin as [Hin|Hin].
  { apply Hhd. eapply handle_cmdarg_from_shows; eauto. }
  apply handle_cmdarg_from_run in Hc as [(rc & m1 & w1 & Hr & _) | [_ (st & Hr)]];
    [|discriminate Hr].
  injection Hr as -> ->. cbn beta iota in H. run H.
  - destruct Hin.
  - destruct (main_pass2_shows prog _ _ _ _ _ _ _ (Nat.le_refl _) H _ _ _ Hin)
      as [Hc'|(y & [= <-] & Hiny)]; [discriminate Hc'|].
    apply Hnot. simpl. auto.
  - destruct (main_pass2_shows prog _ _ _ _ _ _ _ (Nat.le_refl _) H _ _ _ Hin)
      as [Hc'|(y & [= <-] & Hiny)]; [discriminate Hc'|].
    now apply Hnot.
Qed.


(** ** More about the parts of [main] *)

(** *** The first scan *)

Lemma main_pass1_skips prog : forall opts rest (w : world),
  Forall (fun a => plain_option a = true) opts ->
  main_pass1 E prog (opts ++ rest) w = main_pass1 E prog rest w.
Proof.
  induction opts as [|a opts IH]; intros rest w Hopts; [reflexivity|].
  inversion Hopts as [|? ? Ha Hopts']; subst.
  unfold plain_option in Ha. rewrite !andb_true_iff, !negb_true_iff in Ha.
  destruct Ha as [[[Ho Hd] Hh] Hv].
  cbn [app main_pass1]. rewrite Ho, Hd, Hh, Hv. now apply IH.
Qed.

(** X1: a command line of options only, with or without a closing [--],
    has no kernel: [main] says so, prints the usage and exits with status
    1, having called nothing. *)
Theorem missing_kernel_operand :
  forall argv0 opts args w,
    Forall (fun a => plain_option a = true) opts ->
    args = opts \/ args = opts ++ ["--"] ->
    main E argv0 args w
    = (Warnx "Missing KERNEL operand" :: usage_text E (basename E argv0), Stop (Exit 1)).
Proof.
  intros argv0 opts args w Hopts Hargs.
  assert (Hp : main_pass1 E (basename E argv0) args w = ([], Ok [] w)).
  { destruct Hargs as [-> | ->].
    - rewrite <- (app_nil_r opts). now rewrite main_pass1_skips.
    - now rewrite main_pass1_skips. }
  unfold main, bind at 1. rewrite Hp. reflexivity.
Qed.

(** X2: [--help] and [--version] end the run wherever they stand among the
    options before the kernel's name: usage and status 1, version and
    status 0, and no call is made. *)
Theorem terminal_option_after_options :
  forall argv0 opts rest w,
    Forall (fun a => plain_option a = true) opts ->
    main E argv0 (opts ++ "--help" :: rest) w
    = (usage_text E (basename E argv0), Stop (Exit 1)) /\
    main E argv0 (opts ++ "--version" :: rest) w
    = ([Fprintf (basename E argv0 ++ " " ++ SOLO5_VERSION E ++ nl)], Stop (Exit 0)).
Proof.
  intros argv0 opts rest w Hopts. split.
  - unfold main, bind at 1. now rewrite main_pass1_skips.
  - unfold main, bind at 1. now rewrite main_pass1_skips.
Qed.

(** X3: the kernel is the first argument that is not an option, or else
    whatever follows the first [--], even if that looks like an option:
    it is the file [main] opens, and that [open] is the first thing
    [main] does. *)
Theorem kernel_is_first_operand :
  forall argv0 opts elf rest w,
    Forall (fun a => plain_option a = true) opts ->
    (is_option elf = false ->
     exists tl, fst (main E argv0 (opts ++ elf :: rest) w)
                = Call (c_open elf) (Returns (fst (sys_open E elf w))) :: tl) /\
    (exists tl, fst (main E argv0 (opts ++ "--" :: elf :: rest) w)
                = Call (c_open elf) (Returns (fst (sys_open E elf w))) :: tl).
Proof.
  intros argv0 opts elf rest w Hopts.
  assert (Hopen : forall args,
             main_pass1 E (basename E argv0) args w = ([], Ok (elf :: rest) w) ->
             exists tl, fst (main E argv0 args w)
                        = Call (c_open elf) (Returns (fst (sys_open E elf w))) :: tl).
  { intros args Hp. unfold main. unfold bind at 1. rewrite Hp.
    match goal with
    | |- context [let (t2, r2) := ?k in _] => destruct k as [t2 r2] eqn:Hk
    end.
    run Hk; simpl; eauto. }
  split.
  - intro Helf. apply Hopen. rewrite main_pass1_skips by assumption.
    cbn [main_pass1]. now rewrite Helf.
  - apply Hopen. now rewrite main_pass1_skips.
Qed.

(** *** [handle_mem] *)

Lemma match_literal_prefix : forall lit s rest,
  match_literal lit s = inl rest -> String.prefix lit s = true.
Proof.
  induction lit as [|a lit IH]; intros s rest H; [now destruct s|].
  destruct s as [|b s]; [discriminate H|]. simpl in H.
  destruct (Ascii.eqb a b) eqn:Hab; [|discriminate H].
  apply Ascii.eqb_eq in Hab. subst b. cbn [String.prefix].
  destruct (ascii_dec a a); [eauto | congruence].
Qed.

Lemma shl20_mebibytes mem : shl20 mem <> 0 -> mebibytes (shl20 mem).
Proof.
  unfold mebibytes, shl20, to_size_t, SIZE_BITS.
  rewrite Z.shiftl_mul_pow2 by lia. intro Hnz.
  assert (Hb : 0 <= (mem * 2 ^ 20) mod 2 ^ 64 < 2 ^ 64) by (apply Z.mod_pos_bound; lia).
  split; [lia|].
  change (2 ^ 64) with (2 ^ 44 * 2 ^ 20).
  rewrite Z.mul_mod_distr_r by lia. apply Z.mod_mul. lia.
Qed.

(** X4: [handle_mem] has two ways out.  It stores a size, and then the
    token began with [--mem=] and the size is a whole, non-zero number of
    mebibytes below 2^64; or it prints "Malformed argument to --mem" and
    exits with status 1.  It does nothing else. *)
Theorem handle_mem_outcomes :
  forall a w tr r,
    handle_mem E a w = (tr, r) ->
    (exists v, tr = [] /\ r = Ok v w /\
               String.prefix "--mem=" a = true /\ mebibytes v) \/
    (tr = [Errx 1 malformed_mem] /\ r = Stop (Exit 1)).
Proof.
  intros a w tr r H. unfold handle_mem in H.
  destruct (sscanf_mem a) as [rc stored] eqn:Hscan.
  destruct (negb (rc =? 1) || (shl20 _ <=? 0)) eqn:Hbad in H.
  - right. unfold errx in H. now injection H as <- <-.
  - left. unfold ret in H. injection H as <- <-.
    apply orb_false_iff in Hbad as [Hrc Hpos].
    apply negb_false_iff, Z.eqb_eq in Hrc. apply Z.leb_gt in Hpos.
    eexists. split; [reflexivity|]. split; [reflexivity|]. split.
    + unfold sscanf_mem in Hscan.
      destruct (match_literal "--mem=" a) as [rest|[]] eqn:Hlit;
        try (injection Hscan as <- _; discriminate Hrc).
      eapply match_literal_prefix; eauto.
    + apply shl20_mebibytes. lia.
Qed.

(** *** [handle_cmdarg] *)

Lemma handle_cmdarg_from_unclaimed c :
  forall (ms : list (hvt_module world hvt)) i m w tr r,
    (forall md hc m w,
        In md ms -> ops_handle_cmdarg (ops md) = Some hc ->
        exists rc m' w', hc c m w = Returns (rc, m', w') /\ rc <> 0) ->
    handle_cmdarg_from i ms c m w = (tr, r) ->
    (exists m' w', r = Ok (-1, m') w') /\
    Forall2 (fun j e => exists rc, rc <> 0 /\ e = Call (c_handle_cmdarg j c) (Returns rc))
            (handler_positions i ms) tr.
Proof.
  induction ms as [|md ms IH]; intros i m w tr r Hdecl H.
  - simpl in H. run H. split; [eauto | constructor].
  - cbn [handle_cmdarg_from handler_positions] in *.
    destruct (ops_handle_cmdarg (ops md)) as [hc|] eqn:Hmd.
    + destruct (Hdecl md hc m w (or_introl eq_refl) Hmd) as (rc & m' & w' & Hret & Hrc).
      unfold bind at 1, call in H. rewrite Hret in H. cbn beta iota in H.
      apply Z.eqb_neq in Hrc. simpl fst in H. rewrite Hrc in H.
      destruct (handle_cmdarg_from (S i) ms c m' w') as [t2 r2] eqn:Hrest.
      injection H as <- <-.
      apply IH in Hrest as [Hr Ht]; [|intros; eapply Hdecl; eauto; now right].
      split; [exact Hr|]. constructor; [|exact Ht].
      exists rc. split; [now apply Z.eqb_neq | reflexivity].
    + apply IH in H; [exact H|]. intros; eapply Hdecl; eauto; now right.
Qed.

(** X5: a token that every module declines is shown to each module that
    has a [handle_cmdarg], once and in table order, those without one
    being passed over, and [handle_cmdarg] returns -1. *)
Theorem unclaimed_token_goes_round :
  forall c m w tr r,
    (forall md hc m w,
        In md (modules E) -> ops_handle_cmdarg (ops md) = Some hc ->
        exists rc m' w', hc c m w = Returns (rc, m', w') /\ rc <> 0) ->
    handle_cmdarg E c m w = (tr, r) ->
    (exists m' w', r = Ok (-1, m') w') /\
    Forall2 (fun j e => exists rc, rc <> 0 /\ e = Call (c_handle_cmdarg j c) (Returns rc))
            (handler_positions 0 (modules E)) tr.
Proof.
  intros c m w tr r Hdecl H. eapply handle_cmdarg_from_unclaimed; eauto.
Qed.

(** *** [setup_modules] *)

(** X6: when [setup_modules] returns, every [setup] has been called once,
    in table order, and returned 0, nothing was printed, and no entry of
    the manifest below [MFT_RESERVED_FIRST] is left unattached. *)
Theorem setup_modules_returns :
  forall h m w tr m1 w1,
    setup_modules E h m w = (tr, Ok m1 w1) ->
    tr = setups_ok 0 (List.length (modules E)) /\
    (forall en, In en (mft_e m1) ->
                e_type en < MFT_RESERVED_FIRST E -> e_attached en = true).
Proof.
  intros h m w tr m1 w1 H.
  apply setup_modules_run in H
    as [(m1' & w1' & _ & -> & Hr) | [(? & ? & ? & ? & _ & _ & Hr & _)
                                   | (? & ? & ? & ? & _ & Hr & _)]];
    try discriminate Hr.
  destruct (unattached E (mft_e m1')) eqn:Hu; [|discriminate Hr].
  injection Hr as <- <-. split; [simpl; now rewrite app_nil_r|].
  intros en Hin Hty.
  destruct (e_attached en) eqn:Hatt; [reflexivity|].
  assert (Hen : In en (unattached E (mft_e m1))).
  { unfold unattached. apply filter_In. split; [exact Hin|].
    unfold is_reserved. rewrite Hatt. apply Z.leb_gt in Hty. now rewrite Hty. }
  rewrite Hu in Hen. destruct Hen.
Qed.

(** *** What each part of [main] logs *)

Ltac in_cases Hin :=
  simpl in Hin;
  repeat (destruct Hin as [Hin|Hin]; [try discriminate Hin|]);
  try contradiction.

Lemma Forall_in_false (P : event -> bool) t e :
  Forall (fun x => P x = true) t -> P e = false -> ~ In e t.
Proof.
  intros Ht He Hin. rewrite Forall_forall in Ht. apply Ht in Hin. congruence.
Qed.

Lemma usage_text_fprintf prog : Forall (fun e => is_fprintf e = true) (usage_text E prog).
Proof.
  unfold usage_text. repeat (apply Forall_app_intro); repeat (apply Forall_cons; [reflexivity|]);
    try apply Forall_nil.
  - apply Forall_forall. intros e He. apply in_map_iff in He as (md & <- & _). reflexivity.
  - apply Forall_forall. intros e He. apply in_flat_map in He as (md & _ & He).
    destruct (ops_usage (ops md)); simpl in He; [destruct He as [<-|[]]; reflexivity | destruct He].
  - destruct (existsb _ _); repeat constructor.
Qed.

Lemma main_pass1_log prog : forall args w tr r,
  main_pass1 E prog args w = (tr, r) -> Forall (fun e => is_fprintf e = true) tr.
Proof.
  induction args as [|a rest IH]; intros w tr r H; simpl in H.
  - run H. constructor.
  - run H.
    + constructor.
    + apply usage_text_fprintf.
    + unfold version in H. run H. repeat constructor.
    + eauto.
    + constructor.
Qed.

Lemma handle_cmdarg_from_log c :
  forall (ms : list (hvt_module world hvt)) i m w tr r,
    handle_cmdarg_from i ms c m w = (tr, r) ->
    Forall (fun e => options_event e = true) tr.
Proof.
  induction ms as [|md ms IH]; intros i m w tr r H; simpl in H.
  - run H. constructor.
  - run H; repeat constructor; eauto.
Qed.

Lemma main_pass2_log prog : forall n argv mem m w tr r,
  (List.length argv <= n)%nat ->
  main_pass2 E prog argv mem m w = (tr, r) ->
  Forall (fun e => options_event e = true) tr.
Proof.
  induction n as [|n IH]; intros argv mem m w tr r Hn H.
  - destruct argv; [|simpl in Hn; lia]. simpl in H. run H. constructor.
  - destruct argv as [|a rest]; [simpl in H; run H; constructor|].
    simpl in Hn. cbn [main_pass2] in H. run H; try constructor.
    + split_bind H Hm.
      { apply handle_mem_run in Hm as [(v & _ & Hr) | [-> _]]; [discriminate Hr|].
        repeat constructor. }
      apply handle_mem_run in Hm as [(v & -> & Hr) | [_ Hr]]; [|discriminate Hr].
      injection Hr as <- <-. simpl.
      split_bind H Hc; [eapply handle_cmdarg_from_log; eauto|].
      apply Forall_app_intro; [eapply handle_cmdarg_from_log; eauto|].
      apply handle_cmdarg_from_run in Hc as [(rc & m1 & w1 & Hr & _) | [_ (st & Hr)]];
        [|discriminate Hr].
      injection Hr as -> ->. cbn beta iota in H. run H.
      * constructor.
      * eapply IH; [|exact H]. simpl in Hn. lia.
      * eapply IH; [|exact H]. lia.
    + split_bind H Hc; [eapply handle_cmdarg_from_log; eauto|].
      apply Forall_app_intro; [eapply handle_cmdarg_from_log; eauto|].
      apply handle_cmdarg_from_run in Hc as [(rc & m1 & w1 & Hr & _) | [_ (st & Hr)]];
        [|discriminate Hr].
      injection Hr as -> ->. cbn beta iota in H. run H.
      * eapply IH; [|exact H]. lia.
      * constructor; [reflexivity|].
        eapply Forall_impl; [|apply usage_text_fprintf]. now intros [].
Qed.

Lemma start_init_event t :
  Forall (fun e => start_event e = true) t -> Forall (fun e => init_event e = true) t.
Proof.
  apply Forall_impl. intros e He. unfold init_event. rewrite He.
  now destruct e as [[] ?| | | |].
Qed.

Lemma main_init_log elf_fd elf mem_size argc argv m sz w tr r :
  main_init E elf_fd elf mem_size argc argv m sz w = (tr, r) ->
  Forall (fun e => init_event e = true) tr.
Proof.
  unfold main_init. intro H. run H.
  all: repeat (constructor; [reflexivity|]); try constructor.
  apply start_init_event. eapply main_start_events; eauto.
Qed.

(** The size [hvt_mem_size] is given is the one the options left. *)
Lemma main_init_mem_size elf_fd elf mem_size argc argv m sz w tr r ms b :
  main_init E elf_fd elf mem_size argc argv m sz w = (tr, r) ->
  In (Call (c_hvt_mem_size ms) b) tr -> ms = mem_size.
Proof.
  unfold main_init. intros H Hin. run H.
  all: try (in_cases Hin; now injection Hin as -> _).
  simpl in Hin.
  repeat (destruct Hin as [Hin|Hin]; [try discriminate Hin; try (now injection Hin as -> _)|]).
  apply main_start_events in H. exfalso.
  eapply Forall_in_false; [exact H | | exact Hin]. reflexivity.
Qed.

(** The three ways out of [main_options]. *)
Lemma main_options_parts prog args argv1 elf_fd elf mem m sz w tr r :
  main_options E prog args argv1 elf_fd elf mem m sz w = (tr, r) ->
  (exists o, main_pass2 E prog args mem m w = (tr, Stop o) /\ r = Stop o) \/
  (exists argv mem' m' w',
      main_pass2 E prog args mem m w = (tr, Ok (argv, mem', m') w') /\
      List.length argv <> List.length argv1 /\ r = Stop Abort) \/
  (exists t2 argv mem' m' w' tk,
      main_pass2 E prog args mem m w = (t2, Ok (argv, mem', m') w') /\
      tr = t2 ++ tk /\
      main_init E elf_fd elf mem' (Z.of_nat (List.length (tl argv))) (tl argv) m' sz w'
      = (tk, r)).
Proof.
  unfold main_options. intro H. split_bind H Hp; [left; eauto|].
  right. match goal with v : (list string * Z * mft)%type |- _ => destruct v as [[argv mem'] m'] end.
  cbn beta iota in H. run H.
  - left. rewrite app_nil_r. apply negb_true_iff, Nat.eqb_neq in Heqb. eauto 10.
  - right. eauto 10.
Qed.

Lemma main_options_log prog args argv1 elf_fd elf mem m sz w tr r :
  main_options E prog args argv1 elf_fd elf mem m sz w = (tr, r) ->
  Forall (fun e => boot_event e = true) tr.
Proof.
  assert (Ho : forall t, Forall (fun e => options_event e = true) t ->
                         Forall (fun e => boot_event e = true) t).
  { apply Forall_impl. intros e He. unfold boot_event. now rewrite He. }
  assert (Hi : forall t, Forall (fun e => init_event e = true) t ->
                         Forall (fun e => boot_event e = true) t).
  { apply Forall_impl. intros e He. unfold boot_event. rewrite He. apply orb_true_r. }
  intro H. apply main_options_parts in H
    as [(o & Hp & _) | [(argv & mem' & m' & w' & Hp & _ & _)
                       | (t2 & argv & mem' & m' & w' & tk & Hp & -> & Hinit)]].
  - apply Ho. eapply main_pass2_log; eauto.
  - apply Ho. eapply main_pass2_log; eauto.
  - apply Forall_app_intro.
    + apply Ho. eapply main_pass2_log; eauto.
    + apply Hi. eapply main_init_log; eauto.
Qed.

(** The ways out of the first part of [main], one by one. *)
Lemma main_load_run argv0 args w tr r :
  main E argv0 args w = (tr, r) ->
  (exists o, main_pass1 E (basename E argv0) args w = (tr, Stop o) /\ r = Stop o) \/
  (tr = Warnx "Missing KERNEL operand" :: usage_text E (basename E argv0)
   /\ r = Stop (Exit 1)) \/
  (exists elf,
      tr = [Call (c_open elf) (Returns (-1)); Err 1 (could_not_open elf)]
      /\ r = Stop (Exit 1)) \/
  (exists elf fd st,
      tr = [Call (c_open elf) (Returns fd); Call (c_elf_load_note fd elf) (Exits st)]
      /\ fd <> -1 /\ r = Stop (Exit st)) \/
  (exists elf fd,
      tr = [Call (c_open elf) (Returns fd); Call (c_elf_load_note fd elf) (Returns (-1));
            Errx 1 (no_manifest elf)]
      /\ fd <> -1 /\ r = Stop (Exit 1)) \/
  (exists elf fd rcn sz st,
      tr = [Call (c_open elf) (Returns fd); Call (c_elf_load_note fd elf) (Returns rcn);
            Call (c_mft_validate sz) (Exits st)]
      /\ fd <> -1 /\ rcn <> -1 /\ r = Stop (Exit st)) \/
  (exists elf fd rcn sz,
      tr = [Call (c_open elf) (Returns fd); Call (c_elf_load_note fd elf) (Returns rcn);
            Call (c_mft_validate sz) (Returns (-1)); Call c_free (Returns 0);
            Errx 1 (invalid_manifest elf)]
      /\ fd <> -1 /\ rcn <> -1 /\ r = Stop (Exit 1)) \/
  (exists elf rest fd rcn sz rcv m1 w1 tk,
      tr = [Call (c_open elf) (Returns fd); Call (c_elf_load_note fd elf) (Returns rcn);
            Call (c_mft_validate sz) (Returns rcv)] ++ tk
      /\ main_options E (basename E argv0) args (elf :: rest) fd elf 536870912 m1 sz w1
         = (tk, r)
      /\ fd <> -1 /\ rcn <> -1 /\ rcv <> -1
      /\ main_pass1 E (basename E argv0) args w = ([], Ok (elf :: rest) w)).
Proof.
  unfold main. intro H. split_bind H Hp; [left; eauto|].
  pose proof Hp as Hp'.
  apply main_pass1_run in Hp as [(opts & argv1 & Hr & -> & Ha) | [_ [o Hr]]];
    [|discriminate Hr].
  injection Hr as -> ->. cbn beta iota in H. simpl.
  destruct argv1 as [|elf rest].
  - run H. right; left. auto.
  - run H.
    + apply Z.eqb_eq in Heqb. unfold id. rewrite Heqb. do 2 right; left. eauto.
    + apply Z.eqb_neq in Heqb. do 3 right; left. eauto 8.
    + apply Z.eqb_neq in Heqb. apply Z.eqb_eq in Heqb0. simpl fst. subst.
      do 4 right; left. eauto 8.
    + apply Z.eqb_neq in Heqb. apply Z.eqb_neq in Heqb0.
      do 5 right; left. do 5 eexists. split; [reflexivity|]. auto.
    + apply Z.eqb_neq in Heqb. apply Z.eqb_neq in Heqb0. apply Z.eqb_eq in Heqb1.
      simpl fst. subst. do 6 right; left. do 4 eexists. split; [reflexivity|]. auto.
    + apply Z.eqb_neq in Heqb. apply Z.eqb_neq in Heqb0. apply Z.eqb_neq in Heqb1.
      do 7 right. do 9 eexists. split; [reflexivity|]. split; [exact H|]. auto.
Qed.

(** *** Failures while loading *)

(** X7: if [open] fails, [main] reports "Could not open" for that file and
    exits with status 1; nothing else is called. *)
Theorem open_failure_ends_run :
  forall argv0 args w tr r p,
    main E argv0 args w = (tr, r) ->
    In (Call (c_open p) (Returns (-1))) tr ->
    tr = [Call (c_open p) (Returns (-1)); Err 1 (could_not_open p)] /\ r = Stop (Exit 1).
Proof.
  intros argv0 args w tr r p H Hin.
  apply main_load_run in H
    as [(o & Hp & _) | [[-> _] | [(elf & -> & ->) | [(elf & fd & st & -> & Hfd & _)
       | [(elf & fd & -> & Hfd & _) | [(elf & fd & rcn & sz & st & -> & Hfd & _)
       | [(elf & fd & rcn & sz & -> & Hfd & _)
       | (elf & rest & fd & rcn & sz & rcv & m1 & w1 & tk & -> & Hopt & Hfd & _)]]]]]]].
  - exfalso. apply main_pass1_log in Hp.
    eapply Forall_in_false; [exact Hp | | exact Hin]. reflexivity.
  - exfalso. destruct Hin as [Hin|Hin]; [discriminate Hin|].
    eapply Forall_in_false; [apply usage_text_fprintf | | exact Hin]. reflexivity.
  - in_cases Hin. injection Hin as ->. auto.
  - exfalso. in_cases Hin. injection Hin as _ Hfd'. congruence.
  - exfalso. in_cases Hin. injection Hin as _ Hfd'. congruence.
  - exfalso. in_cases Hin. injection Hin as _ Hfd'. congruence.
  - exfalso. in_cases Hin. injection Hin as _ Hfd'. congruence.
  - exfalso. apply in_app_iff in Hin as [Hin|Hin].
    + in_cases Hin. injection Hin as _ Hfd'. congruence.
    + apply main_options_log in Hopt.
      eapply Forall_in_false; [exact Hopt | | exact Hin]. reflexivity.
Qed.

(** X8: if [elf_load_note] finds no manifest, [main] says so and exits
    with status 1 straight away; if [mft_validate] turns the manifest
    down, [main] frees it, says so and exits with status 1.  In both cases
    no module, no signal handler and no guest memory has been touched. *)
Theorem manifest_failure_ends_run :
  forall argv0 args w tr r,
    main E argv0 args w = (tr, r) ->
    (forall fd p,
        In (Call (c_elf_load_note fd p) (Returns (-1))) tr ->
        tr = [Call (c_open p) (Returns fd); Call (c_elf_load_note fd p) (Returns (-1));
              Errx 1 (no_manifest p)]
        /\ r = Stop (Exit 1)) /\
    (forall sz,
        In (Call (c_mft_validate sz) (Returns (-1))) tr ->
        exists p fd rcn,
          tr = [Call (c_open p) (Returns fd); Call (c_elf_load_note fd p) (Returns rcn);
                Call (c_mft_validate sz) (Returns (-1)); Call c_free (Returns 0);
                Errx 1 (invalid_manifest p)]
          /\ r = Stop (Exit 1)).
Proof.
  intros argv0 args w tr r H.
  apply main_load_run in H
    as [(o & Hp & _) | [[-> _] | [(elf & -> & ->) | [(elf & fd & st & -> & Hfd & _)
       | [(elf & fd & -> & Hfd & ->) | [(elf & fd & rcn & sz & st & -> & Hfd & Hrcn & _)
       | [(elf & fd & rcn & sz & -> & Hfd & Hrcn & ->)
       | (elf & rest & fd & rcn & sz & rcv & m1 & w1 & tk & -> & Hopt & Hfd & Hrcn & Hrcv & _)]]]]]]].
  - apply main_pass1_log in Hp. split; intros; exfalso;
      (eapply Forall_in_false; [exact Hp | | eassumption]; reflexivity).
  - split; intros; exfalso;
      (match goal with Hin : In _ (_ :: _) |- _ => destruct Hin as [Hin|Hin]; [discriminate Hin|];
         eapply Forall_in_false; [apply usage_text_fprintf | | exact Hin] end; reflexivity).
  - split; intros ? ? ; try intros Hin; exfalso;
      match goal with Hin : In _ _ |- _ => in_cases Hin end.
  - split; intros ? ? ; try intros Hin; exfalso;
      match goal with Hin : In _ _ |- _ => in_cases Hin end.
  - split.
    + intros fd' p Hin. in_cases Hin. injection Hin as -> ->. auto.
    + intros sz Hin. exfalso. in_cases Hin.
  - split.
    + intros fd' p Hin. exfalso. in_cases Hin. injection Hin as _ _ Hrcn'. congruence.
    + intros sz' Hin. exfalso. in_cases Hin.
  - split.
    + intros fd' p Hin. exfalso. in_cases Hin. injection Hin as _ _ Hrcn'. congruence.
    + intros sz' Hin. in_cases Hin. injection Hin as ->. eauto.
  - apply main_options_log in Hopt. split.
    + intros fd' p Hin. exfalso. apply in_app_iff in Hin as [Hin|Hin].
      * in_cases Hin. injection Hin as _ _ Hrcn'. congruence.
      * eapply Forall_in_false; [exact Hopt | | exact Hin]. reflexivity.
    + intros sz' Hin. exfalso. apply in_app_iff in Hin as [Hin|Hin].
      * in_cases Hin. injection Hin as _ Hrcv'. congruence.
      * eapply Forall_in_false; [exact Hopt | | exact Hin]. reflexivity.
Qed.


(** *** The memory size *)

Lemma handle_mem_stores a w tr v w' :
  handle_mem E a w = (tr, Ok v w') ->
  String.prefix "--mem=" a = true /\ mebibytes v.
Proof.
  intro H. unfold handle_mem in H.
  destruct (sscanf_mem a) as [rc stored] eqn:Hscan.
  destruct (negb (rc =? 1) || (shl20 _ <=? 0)) eqn:Hbad in H.
  - unfold errx in H. discriminate H.
  - unfold ret in H. injection H as _ <- _.
    apply orb_false_iff in Hbad as [Hrc Hpos].
    apply negb_false_iff, Z.eqb_eq in Hrc. apply Z.leb_gt in Hpos. split.
    + unfold sscanf_mem in Hscan.
      destruct (match_literal "--mem=" a) as [rest|[]] eqn:Hlit;
        try (injection Hscan as <- _; discriminate Hrc).
      eapply match_literal_prefix; eauto.
    + apply shl20_mebibytes. lia.
Qed.

(** The second scan keeps what holds of the default and of every size
    [handle_mem] stores. *)
Lemma main_pass2_mem_size (Q : Z -> Prop) prog :
  (forall a w tr v w', handle_mem E a w = (tr, Ok v w') -> Q v) ->
  forall n argv mem m w tr r,
    (List.length argv <= n)%nat -> Q mem ->
    main_pass2 E prog argv mem m w = (tr, r) ->
    forall argv' mem' m' w', r = Ok (argv', mem', m') w' -> Q mem'.
Proof.
  intro HQ. induction n as [|n IH];
    intros argv mem m w tr r Hn Hmem H argv' mem' m' w' Hr.
  - destruct argv; [|simpl in Hn; lia]. simpl in H. run H. now injection Hr as _ <- _ _.
  - destruct argv as [|a rest]; [simpl in H; run H; now injection Hr as _ <- _ _|].
    simpl in Hn. cbn [main_pass2] in H. run H; try (now injection Hr as _ <- _ _).
    + split_bind H Hm; [discriminate Hr|].
      apply HQ in Hm.
      split_bind H Hc; [discriminate Hr|].
      apply handle_cmdarg_from_run in Hc as [(rc & m1 & w1 & Hr' & _) | [_ (st & Hr')]];
        [|discriminate Hr'].
      injection Hr' as -> ->. cbn beta iota in H. run H.
      * discriminate Hr.
      * eapply IH; [| exact Hm | exact H | exact Hr]. simpl in Hn. lia.
      * eapply IH; [| exact Hm | exact H | exact Hr]. lia.
    + split_bind H Hc; [discriminate Hr|].
      apply handle_cmdarg_from_run in Hc as [(rc & m1 & w1 & Hr' & _) | [_ (st & Hr')]];
        [|discriminate Hr'].
      injection Hr' as -> ->. cbn beta iota in H. run H.
      * eapply IH; [| exact Hmem | exact H | exact Hr]. lia.
      * discriminate Hr.
Qed.

(** Without a memory option the second scan leaves the size alone. *)
Lemma main_pass2_no_mem prog : forall argv mem m w tr r,
  Forall (fun a => String.prefix "--mem=" a = false) argv ->
  main_pass2 E prog argv mem m w = (tr, r) ->
  forall argv' mem' m' w', r = Ok (argv', mem', m') w' -> mem' = mem.
Proof.
  induction argv as [|a rest IH]; intros mem m w tr r Hno H argv' mem' m' w' Hr.
  - simpl in H. run H. now injection Hr as _ <- _ _.
  - pose proof (Forall_inv Hno) as Ha. pose proof (Forall_inv_tail Hno) as Hrest.
    cbv beta in Ha. cbn [main_pass2] in H. rewrite Ha in H.
    run H; try (now injection Hr as _ <- _ _).
    split_bind H Hc; [discriminate Hr|].
    apply handle_cmdarg_from_run in Hc as [(rc & m1 & w1 & Hr' & _) | [_ (st & Hr')]];
      [|discriminate Hr'].
    injection Hr' as -> ->. cbn beta iota in H. run H.
    + eapply IH; eauto.
    + discriminate Hr.
Qed.

(** Every call of [hvt_mem_size] in a run gets what the second scan left. *)
Lemma main_mem_size argv0 args w tr r ms b :
  main E argv0 args w = (tr, r) ->
  In (Call (c_hvt_mem_size ms) b) tr ->
  exists m w1 t2 argv m' w2,
    main_pass2 E (basename E argv0) args 536870912 m w1 = (t2, Ok (argv, ms, m') w2).
Proof.
  intros H Hin.
  apply main_load_run in H
    as [(o & Hp & _) | [[-> _] | [(elf & -> & _) | [(elf & fd & st & -> & _)
       | [(elf & fd & -> & _) | [(elf & fd & rcn & sz & st & -> & _)
       | [(elf & fd & rcn & sz & -> & _)
       | (elf & rest & fd & rcn & sz & rcv & m1 & w1 & tk & -> & Hopt & _)]]]]]]].
  - exfalso. apply main_pass1_log in Hp.
    eapply Forall_in_false; [exact Hp | | exact Hin]. reflexivity.
  - exfalso. destruct Hin as [Hin|Hin]; [discriminate Hin|].
    eapply Forall_in_false; [apply usage_text_fprintf | | exact Hin]. reflexivity.
  - exfalso. in_cases Hin.
  - exfalso. in_cases Hin.
  - exfalso. in_cases Hin.
  - exfalso. in_cases Hin.
  - exfalso. in_cases Hin.
  - apply in_app_iff in Hin as [Hin|Hin]; [exfalso; in_cases Hin|].
    apply main_options_parts in Hopt
      as [(o & Hp & _) | [(argv & mem' & m' & w' & Hp & _ & _)
                         | (t2 & argv & mem' & m' & w' & tk' & Hp & -> & Hinit)]].
    + exfalso. apply (main_pass2_log _ _ _ _ _ _ _ _ (Nat.le_refl _)) in Hp.
      eapply Forall_in_false; [exact Hp | | exact Hin]. reflexivity.
    + exfalso. apply (main_pass2_log _ _ _ _ _ _ _ _ (Nat.le_refl _)) in Hp.
      eapply Forall_in_false; [exact Hp | | exact Hin]. reflexivity.
    + apply in_app_iff in Hin as [Hin|Hin].
      * exfalso. apply (main_pass2_log _ _ _ _ _ _ _ _ (Nat.le_refl _)) in Hp.
        eapply Forall_in_false; [exact Hp | | exact Hin]. reflexivity.
      * apply (main_init_mem_size _ _ _ _ _ _ _ _ _ _ _ _ Hinit) in Hin. subst. eauto 8.
Qed.

(** X10: on a command line without [--mem=...] the guest gets the default:
    [hvt_mem_size] is called with 0x20000000, 512 mebibytes. *)
Theorem default_memory_size :
  forall argv0 args w tr r ms b,
    Forall (fun a => String.prefix "--mem=" a = false) args ->
    main E argv0 args w = (tr, r) ->
    In (Call (c_hvt_mem_size ms) b) tr ->
    ms = 512 * 2 ^ 20.
Proof.
  intros argv0 args w tr r ms b Hno H Hin.
  destruct (main_mem_size _ _ _ _ _ _ _ H Hin) as (m & w1 & t2 & argv & m' & w2 & Hp).
  exact (main_pass2_no_mem _ _ _ _ _ _ _ Hno Hp _ _ _ _ eq_refl).
Qed.

(** X11: whatever the command line, the size [hvt_mem_size] is called with
    is a whole, non-zero number of mebibytes below 2^64. *)
Theorem memory_size_in_mebibytes :
  forall argv0 args w tr r ms b,
    main E argv0 args w = (tr, r) ->
    In (Call (c_hvt_mem_size ms) b) tr ->
    mebibytes ms.
Proof.
  intros argv0 args w tr r ms b H Hin.
  destruct (main_mem_size _ _ _ _ _ _ _ H Hin) as (m & w1 & t2 & argv & m' & w2 & Hp).
  eapply (main_pass2_mem_size mebibytes); [| apply Nat.le_refl | | exact Hp | reflexivity].
  - intros a w0 tr0 v w' Hm. now apply handle_mem_stores in Hm.
  - unfold mebibytes. split; [lia | reflexivity].
Qed.

(** *** The last steps *)

Lemma main_start_no_drop h ep kend argc argv m sz w tk r :
  HVT_DROP_PRIVILEGES E = false ->
  main_start E h ep kend argc argv m sz w = (tk, r) ->
  Forall (fun e => is_drop e = false) tk /\
  (forall pre al post,
      tk = pre ++ Call c_hvt_vcpu_loop al :: post ->
      post = [] /\
      exists pre', pre = pre' ++ [Warnx no_drop_warning1; Warnx no_drop_warning2]).
Proof.
  intros Hno H.
  apply main_start_run in H
    as [(st & -> & _) | [(w1 & ts & o & Hs & _ & ->) | (w1 & m1 & w2 & ab & tf & _ & Hu & -> & Hf)]].
  - split; [classes|]. intros pre al post Hsplit. nosplit is_loop Hsplit.
  - apply setup_modules_events in Hs. split; [classes|].
    intros pre al post Hsplit. nosplit is_loop Hsplit.
  - destruct Hf as [(st & -> & -> & _) | [(st & -> & Hd & _)
                   | [(al & -> & Hd & _) | (al & -> & _ & -> & _)]]]; try congruence.
    + split; [classes|]. intros pre al post Hsplit. nosplit is_loop Hsplit.
    + split; [classes|]. intros pre al' post Hsplit.
      match type of Hsplit with
      | ?v :: ?S ++ [?b; ?w1; ?w2; ?l] = _ =>
          assert (Hshape : (v :: S ++ [b; w1; w2]) ++ l :: []
                           = pre ++ Call c_hvt_vcpu_loop al' :: post)
            by (rewrite <- Hsplit; simpl; rewrite <- app_assoc; reflexivity)
      end.
      apply (split_first is_loop) in Hshape as (-> & _ & ->);
        [| classes | reflexivity | classes | reflexivity].
      split; [reflexivity|].
      match goal with
      | |- exists pre', ?v :: ?S ++ [?b; ?w1; ?w2] = _ => exists (v :: S ++ [b])
      end.
      simpl. rewrite <- app_assoc. reflexivity.
Qed.

(** X12: a tender built with [HVT_DROP_PRIVILEGES] off never calls
    [hvt_drop_privileges], and enters [hvt_vcpu_loop] only right after its
    two warnings. *)
Theorem no_drop_build_warns :
  forall argv0 args w tr r,
    HVT_DROP_PRIVILEGES E = false ->
    main E argv0 args w = (tr, r) ->
    (forall a, ~ In (Call c_hvt_drop_privileges a) tr) /\
    (forall pre al post,
        tr = pre ++ Call c_hvt_vcpu_loop al :: post ->
        post = [] /\
        exists pre', pre = pre' ++ [Warnx no_drop_warning1; Warnx no_drop_warning2]).
Proof.
  intros argv0 args w tr r Hno H.
  apply main_boot_run in H as [[Ht _] | H].
  { split.
    - intros a Hin. rewrite Forall_forall in Ht. apply Ht in Hin. discriminate Hin.
    - intros pre al post Hsplit. nosplit is_loop Hsplit. }
  destruct H as (opts & elf & residual & fd & rcn & sz & rcv & m0 & wa & t2 & mem' & m'
                 & wb & r1 & r2 & ms1 & h & ep & kend & rcl & w1 & tk
                 & _ & _ & _ & Ht2 & _ & _ & _ & _ & _ & -> & Hstart).
  destruct (main_start_no_drop _ _ _ _ _ _ _ _ _ _ Hno Hstart) as [Hnd Hloop].
  split.
  - intros a Hin.
    eapply (Forall_in_false (fun e => negb (is_drop e))); [| | exact Hin]; [|reflexivity].
    eapply Forall_impl; [|instantiate (1 := fun e => is_drop e = false); classes].
    intros e He. simpl in He. now rewrite He.
  - intros pre al post Hsplit.
    match type of Hsplit with
    | ?A ++ ?T ++ ?B ++ ?K = _ =>
        assert (Hshape : (A ++ T ++ B) ++ K = pre ++ Call c_hvt_vcpu_loop al :: post)
          by (rewrite <- Hsplit; rewrite <- !app_assoc; reflexivity)
    end.
    apply (split_skip is_loop) in Hshape as (pre0 & -> & Htk); [| classes | reflexivity].
    destruct (Hloop _ _ _ Htk) as [-> (pre' & ->)].
    split; [reflexivity|].
    match goal with
    | |- exists p, ?K ++ pre' ++ _ = _ => exists (K ++ pre')
    end.
    apply app_assoc.
Qed.

(** X13: [main] returns only from [hvt_vcpu_loop] and with its value: a run
    that returns [z] ends with that call returning [z], and a run in which
    that call returns [z] returns [z]. *)
Theorem main_returns_loop_status :
  forall argv0 args w tr r z,
    main E argv0 args w = (tr, r) ->
    ((exists w', r = Ok z w') ->
     exists tr', tr = tr' ++ [Call c_hvt_vcpu_loop (Returns z)]) /\
    (In (Call c_hvt_vcpu_loop (Returns z)) tr -> exists w', r = Ok z w').
Proof.
  intros argv0 args w tr r z H.
  apply main_boot_run in H as [[Ht [o ->]] | H].
  { split.
    - intros [w' Hr]. discriminate Hr.
    - intro Hin. rewrite Forall_forall in Ht. apply Ht in Hin. discriminate Hin. }
  destruct H as (opts & elf & residual & fd & rcn & sz & rcv & m0 & wa & t2 & mem' & m'
                 & wb & r1 & r2 & ms1 & h & ep & kend & rcl & w1 & tk
                 & _ & _ & _ & Ht2 & _ & _ & _ & _ & _ & -> & Hstart).
  assert (Hk : ((exists w', r = Ok z w') ->
                exists tk', tk = tk' ++ [Call c_hvt_vcpu_loop (Returns z)]) /\
               (In (Call c_hvt_vcpu_loop (Returns z)) tk -> exists w', r = Ok z w')).
  { apply main_start_run in Hstart
      as [(st & -> & ->) | [(w1' & ts & o & Hs & -> & ->)
                           | (w1' & m1 & w2 & ab & tf & _ & Hu & -> & Hf)]].
    - split; [intros [? Hr]; discriminate Hr | intro Hin; in_cases Hin].
    - split; [intros [? Hr]; discriminate Hr|].
      intro Hin. exfalso. apply setup_modules_events in Hs.
      destruct Hin as [Hin|Hin]; [discriminate Hin|].
      eapply Forall_in_false; [exact Hs | | exact Hin]. reflexivity.
    - assert (Hset : forall e, In e (setups_ok 0 (List.length (modules E))) ->
                               is_loop e = false).
      { intros e He. apply in_map_iff in He as (j & <- & _). reflexivity. }
      destruct Hf as [(st & -> & -> & ->) | [(st & -> & _ & -> & ->)
                     | [(al & -> & _ & -> & Hend) | (al & -> & _ & -> & Hend)]]].
      + split; [intros [? Hr]; discriminate Hr|].
        intro Hin. exfalso. destruct Hin as [Hin|Hin]; [discriminate Hin|].
        apply in_app_iff in Hin as [Hin|Hin]; [apply Hset in Hin; discriminate Hin|].
        in_cases Hin.
      + split; [intros [? Hr]; discriminate Hr|].
        intro Hin. exfalso. destruct Hin as [Hin|Hin]; [discriminate Hin|].
        apply in_app_iff in Hin as [Hin|Hin]; [apply Hset in Hin; discriminate Hin|].
        in_cases Hin.
      + destruct al as [z'|st]; simpl in Hend.
        * destruct Hend as [w' ->]. split.
          -- intros [w'' Hr]. injection Hr as -> _.
             match goal with
             | |- exists p, ?v :: ?S ++ [?b; ?d; ?l] = _ => exists (v :: S ++ [b; d])
             end.
             simpl. rewrite <- app_assoc. reflexivity.
          -- intro Hin. destruct Hin as [Hin|Hin]; [discriminate Hin|].
             apply in_app_iff in Hin as [Hin|Hin]; [apply Hset in Hin; discriminate Hin|].
             in_cases Hin. injection Hin as ->. eauto.
        * subst r. split; [intros [? Hr]; discriminate Hr|].
          intro Hin. exfalso. destruct Hin as [Hin|Hin]; [discriminate Hin|].
          apply in_app_iff in Hin as [Hin|Hin]; [apply Hset in Hin; discriminate Hin|].
          in_cases Hin.
      + destruct al as [z'|st]; simpl in Hend.
        * destruct Hend as [w' ->]. split.
          -- intros [w'' Hr]. injection Hr as -> _.
             match goal with
             | |- exists p, ?v :: ?S ++ [?b; ?x1; ?x2; ?l] = _ =>
                 exists (v :: S ++ [b; x1; x2])
             end.
             simpl. rewrite <- app_assoc. reflexivity.
          -- intro Hin. destruct Hin as [Hin|Hin]; [discriminate Hin|].
             apply in_app_iff in Hin as [Hin|Hin]; [apply Hset in Hin; discriminate Hin|].
             in_cases Hin. injection Hin as ->. eauto.
        * subst r. split; [intros [? Hr]; discriminate Hr|].
          intro Hin. exfalso. destruct Hin as [Hin|Hin]; [discriminate Hin|].
          apply in_app_iff in Hin as [Hin|Hin]; [apply Hset in Hin; discriminate Hin|].
          in_cases Hin. }
  destruct Hk as [Hk1 Hk2]. split.
  - intro Hr. destruct (Hk1 Hr) as (tk' & ->).
    match goal with
    | |- exists p, ?A ++ ?T ++ ?B ++ tk' ++ _ = _ => exists (A ++ T ++ B ++ tk')
    end.
    rewrite <- !app_assoc. reflexivity.
  - intro Hin.
    apply in_app_iff in Hin as [Hin|Hin]; [exfalso; in_cases Hin|].
    apply in_app_iff in Hin as [Hin|Hin].
    { exfalso. eapply (Forall_in_false cmdarg_call); [exact Ht2 | | exact Hin]. reflexivity. }
    apply in_app_iff in Hin as [Hin|Hin]; [exfalso; in_cases Hin|].
    now apply Hk2.
Qed.

(** *** When the two scans agree *)

Lemma main_pass1_stops prog : forall args (w : world) tr argv1 w',
  main_pass1 E prog args w = (tr, Ok argv1 w') ->
  exists opts,
    Forall (fun a => plain_option a = true) opts /\
    ((args = opts ++ argv1 /\ match argv1 with
                              | [] => True
                              | a :: _ => is_option a = false
                              end)
     \/ args = opts ++ "--" :: argv1).
Proof.
  induction args as [|a rest IH]; intros w tr argv1 w' H; cbn [main_pass1] in H.
  - unfold ret in H. injection H as _ <- _. exists []. auto.
  - destruct (is_option a) eqn:Ho.
    + destruct (String.eqb "--" a) eqn:Hd.
      * apply String.eqb_eq in Hd. subst a. unfold ret in H. injection H as _ <- _.
        exists []. auto.
      * destruct (String.eqb "--help" a) eqn:Hh; [unfold usage in H; discriminate H|].
        destruct (String.eqb "--version" a) eqn:Hv.
        { unfold version, bind, fprintf, emit, exit, stop in H. discriminate H. }
        apply IH in H as (opts & Hopts & Hshape).
        exists (a :: opts). split.
        -- constructor; [|exact Hopts]. unfold plain_option. now rewrite Ho, Hd, Hh, Hv.
        -- destruct Hshape as [[-> Hhd] | ->]; [left | right]; auto.
    + unfold ret in H. injection H as _ <- _. exists []. split; [constructor|].
      left. now rewrite Ho.
Qed.

(** Over options of which none sets the memory size the second scan goes
    one argument at a time. *)
Lemma main_pass2_plain prog : forall opts rest mem m w tr r,
  Forall (fun a => plain_option a = true) opts ->
  Forall (fun a => String.prefix "--mem=" a = false) opts ->
  main_pass2 E prog (opts ++ rest) mem m w = (tr, r) ->
  (exists st, r = Stop (Exit st)) \/
  (exists t1 t2 m1 w1, tr = t1 ++ t2 /\ main_pass2 E prog rest mem m1 w1 = (t2, r)).
Proof.
  induction opts as [|a opts IH]; intros rest mem m w tr r Hplain Hno H.
  - right. exists [], tr, m, w. auto.
  - pose proof (Forall_inv Hplain) as Ha. pose proof (Forall_inv_tail Hplain) as Hplain'.
    pose proof (Forall_inv Hno) as Hm. pose proof (Forall_inv_tail Hno) as Hno'.
    cbv beta in Ha, Hm. unfold plain_option in Ha.
    rewrite !andb_true_iff, !negb_true_iff in Ha. destruct Ha as [[[Ho Hd] _] _].
    cbn [app main_pass2] in H. rewrite Ho, Hd, Hm in H. simpl negb in H. cbv iota in H.
    split_bind H Hc.
    { apply handle_cmdarg_from_run in Hc as [(rc & m1 & w1 & Hr & _) | [_ (st & Hr)]];
        [discriminate Hr|]. left. injection Hr as ->. eauto. }
    apply handle_cmdarg_from_run in Hc as [(rc & m1 & w1 & Hr & _) | [_ (st & Hr)]];
      [|discriminate Hr].
    injection Hr as -> ->. cbn beta iota in H. run H.
    + apply IH in H as [H | (t1 & t2 & m2 & w2 & -> & H)]; auto.
      right. eexists (_ ++ t1), t2, m2, w2. split; [now rewrite app_assoc | exact H].
    + left. eauto.
Qed.

Lemma main_start_ends h ep kend argc argv m sz w tk o :
  main_start E h ep kend argc argv m sz w = (tk, Stop o) -> exists st, o = Exit st.
Proof.
  intro H. apply main_start_run in H
    as [(st & _ & Hr) | [(w1 & ts & o' & Hs & Hr & _) | (w1 & m1 & w2 & ab & tf & _ & _ & _ & Hf)]].
  - injection Hr as ->. eauto.
  - injection Hr as ->.
    apply setup_modules_run in Hs
      as [(m1 & w1' & _ & _ & Hr) | [(? & ? & ? & ? & _ & _ & Hr & _)
                                    | (? & ? & ? & st & _ & Hr & _)]].
    + destruct (unattached E (mft_e m1)); [discriminate Hr|]. injection Hr as ->. eauto.
    + injection Hr as ->. eauto.
    + injection Hr as ->. eauto.
  - destruct Hf as [(st & _ & _ & Hr) | [(st & _ & _ & _ & Hr)
                   | [(al & _ & _ & _ & Hend) | (al & _ & _ & _ & Hend)]]];
      try (injection Hr as ->; eauto);
      (destruct al; simpl in Hend; [destruct Hend as [? Hr]; discriminate Hr
                                   | injection Hend as ->; eauto]).
Qed.

Lemma main_init_ends elf_fd elf mem_size argc argv m sz w tk o :
  main_init E elf_fd elf mem_size argc argv m sz w = (tk, Stop o) -> exists st, o = Exit st.
Proof.
  unfold main_init. intro H. remember (Stop o) as r eqn:Hr in H. run H.
  all: try (injection Hr as <-; eauto; fail).
  subst. eapply main_start_ends; eauto.
Qed.

(** X14: on a command line without [--mem=...] the process ends by [exit]
    or by returning from [main]: the assertion after the second scan
    never fails, and the scan never reads past the end of the argument
    vector. *)
Theorem scans_agree_without_mem_option :
  forall argv0 args w tr r,
    Forall (fun a => String.prefix "--mem=" a = false) args ->
    main E argv0 args w = (tr, r) ->
    (exists st, r = Stop (Exit st)) \/ (exists z w', r = Ok z w').
Proof.
  intros argv0 args w tr r Hno H.
  apply main_load_run in H
    as [(o & Hp & ->) | [[_ ->] | [(elf & _ & ->) | [(elf & fd & st & _ & _ & ->)
       | [(elf & fd & _ & _ & ->) | [(elf & fd & rcn & sz & st & _ & _ & _ & ->)
       | [(elf & fd & rcn & sz & _ & _ & _ & ->)
       | (elf & rest & fd & rcn & sz & rcv & m1 & w1 & tk & -> & Hopt & _ & _ & _ & Hp1)]]]]]]];
    eauto.
  - (* the first scan met --help or --version *)
    left. apply main_pass1_run in Hp as [(? & ? & Hr & _) | [_ [st Hr]]];
      [discriminate Hr | injection Hr as ->; eauto].
  - (* the first scan found the kernel *)
    apply main_pass1_stops in Hp1 as (opts & Hplain & Hshape).
    assert (Hstop : forall mem m w0 t2 r2,
               main_pass2 E (basename E argv0) args mem m w0 = (t2, r2) ->
               (exists st, r2 = Stop (Exit st)) \/
               (exists mem' m' w', r2 = Ok (elf :: rest, mem', m') w')).
    { intros mem m w0 t2 r2 Hp2.
      destruct Hshape as [[-> Helf] | ->];
        apply Forall_app in Hno as [Hno _];
        apply (main_pass2_plain _ _ _ _ _ _ _ _ Hplain Hno) in Hp2
          as [Hp2 | (t1 & t3 & m2 & w2 & _ & Hp2)]; auto.
      - cbn [main_pass2] in Hp2. rewrite Helf in Hp2. simpl negb in Hp2. cbv iota in Hp2.
        unfold ret in Hp2. injection Hp2 as _ <-. eauto.
      - cbn [main_pass2] in Hp2. simpl in Hp2.
        unfold ret in Hp2. injection Hp2 as _ <-. eauto. }
    apply main_options_parts in Hopt
      as [(o & Hp2 & ->) | [(argv & mem' & m' & w' & Hp2 & Hlen & _)
                           | (t2 & argv & mem' & m' & w' & tk' & _ & _ & Hinit)]].
    + apply Hstop in Hp2 as [(st & Hp2) | (? & ? & ? & Hp2)]; [|discriminate Hp2].
      injection Hp2 as ->. eauto.
    + apply Hstop in Hp2 as [(? & Hp2) | (? & ? & ? & Hp2)]; [discriminate Hp2|].
      injection Hp2 as -> _ _ _. congruence.
    + destruct r as [z w''|o]; [eauto|].
      left. apply main_init_ends in Hinit as [st ->]. eauto.
Qed.

(** *** An option nobody takes *)

Lemma handle_cmdarg_from_calls c :
  forall (ms : list (hvt_module world hvt)) i m w tr r,
    handle_cmdarg_from i ms c m w = (tr, r) -> Forall (fun e => is_call e = true) tr.
Proof.
  induction ms as [|md ms IH]; intros i m w tr r H; simpl in H.
  - run H. constructor.
  - run H; repeat constructor; eauto.
Qed.

Lemma main_pass2_warns prog : forall n argv mem m w tr r s,
  (List.length argv <= n)%nat ->
  main_pass2 E prog argv mem m w = (tr, r) ->
  In (Warnx s) tr ->
  r = Stop (Exit 1) /\
  exists a pre, In a argv /\ s = invalid_option a /\ tr = pre ++ Warnx s :: usage_text E prog.
Proof.
  induction n as [|n IH]; intros argv mem m w tr r s Hn H Hin.
  - destruct argv; [|simpl in Hn; lia]. simpl in H. run H. destruct Hin.
  - destruct argv as [|a rest]; [simpl in H; run H; destruct Hin|].
    simpl in Hn. cbn [main_pass2] in H. run H; try (destruct Hin; fail).
    + split_bind H Hm.
      { apply handle_mem_run in Hm as [(v & _ & Hr) | [-> _]]; [discriminate Hr|].
        in_cases Hin. }
      apply handle_mem_run in Hm as [(v & -> & Hr) | [_ Hr]]; [|discriminate Hr].
      injection Hr as <- <-. simpl in Hin. simpl.
      split_bind H Hc.
      { exfalso. apply handle_cmdarg_from_calls in Hc.
        eapply Forall_in_false; [exact Hc | | exact Hin]. reflexivity. }
      apply in_app_iff in Hin as [Hin|Hin].
      { exfalso. apply handle_cmdarg_from_calls in Hc.
        eapply Forall_in_false; [exact Hc | | exact Hin]. reflexivity. }
      apply handle_cmdarg_from_run in Hc as [(rc & m1 & w1 & Hr & _) | [_ (st & Hr)]];
        [|discriminate Hr].
      injection Hr as -> ->. cbn beta iota in H. run H.
      * destruct Hin.
      * eapply IH in H; [|simpl in Hn; lia|exact Hin].
        destruct H as (-> & a' & pre & Ha' & -> & ->). split; [reflexivity|].
        exists a'. eexists (_ ++ pre). split; [simpl; auto|]. split; [reflexivity|].
        apply app_assoc.
      * eapply IH in H; [|lia|exact Hin].
        destruct H as (-> & a' & pre & Ha' & -> & ->). split; [reflexivity|].
        exists a'. eexists (_ ++ pre). split; [simpl; auto|]. split; [reflexivity|].
        apply app_assoc.
    + split_bind H Hc.
      { exfalso. apply handle_cmdarg_from_calls in Hc.
        eapply Forall_in_false; [exact Hc | | exact Hin]. reflexivity. }
      pose proof (handle_cmdarg_from_calls _ _ _ _ _ _ _ Hc) as Hcalls.
      apply handle_cmdarg_from_run in Hc as [(rc & m1 & w1 & Hr & _) | [_ (st & Hr)]];
        [|discriminate Hr].
      injection Hr as -> ->. cbn beta iota in H. run H.
      * apply in_app_iff in Hin as [Hin|Hin].
        { exfalso. eapply Forall_in_false; [exact Hcalls | | exact Hin]. reflexivity. }
        eapply IH in H; [|lia|exact Hin].
        destruct H as (-> & a' & pre & Ha' & -> & ->). split; [reflexivity|].
        exists a'. eexists (_ ++ pre). split; [simpl; auto|]. split; [reflexivity|].
        apply app_assoc.
      * split; [reflexivity|].
        apply in_app_iff in Hin as [Hin|Hin].
        { exfalso. eapply Forall_in_false; [exact Hcalls | | exact Hin]. reflexivity. }
        destruct Hin as [Hin|Hin].
        -- injection Hin as <-. exists a. eexists. split; [now left|]. split; reflexivity.
        -- exfalso. eapply Forall_in_false; [apply usage_text_fprintf | | exact Hin].
           reflexivity.
Qed.

Lemma invalid_option_inj a a' : invalid_option a = invalid_option a' -> a = a'.
Proof.
  unfold invalid_option. simpl. intro H. injection H as H.
  revert a' H. induction a as [|c a IH]; intros [|c' a'] H; simpl in H.
  - reflexivity.
  - injection H as _ H. destruct a'; discriminate H.
  - injection H as _ H. destruct a; discriminate H.
  - injection H as -> H. f_equal. now apply IH.
Qed.

Lemma setup_modules_no_invalid h m w ts r a :
  setup_modules E h m w = (ts, r) -> ~ In (Warnx (invalid_option a)) ts.
Proof.
  intros H Hin.
  apply setup_modules_run in H
    as [(m1 & w1 & _ & -> & _) | [(pre & md & post & rc & _ & _ & _ & ->)
                                 | (pre & md & post & st & _ & _ & ->)]].
  - apply in_app_iff in Hin as [Hin|Hin].
    { apply in_map_iff in Hin as (j & Hj & _). discriminate Hj. }
    apply in_app_iff in Hin as [Hin|Hin].
    { apply in_map_iff in Hin as (en & Hen & _). discriminate Hen. }
    destruct (unattached E (mft_e m1)); in_cases Hin.
  - apply in_app_iff in Hin as [Hin|Hin].
    { apply in_map_iff in Hin as (j & Hj & _). discriminate Hj. }
    apply in_app_iff in Hin as [Hin|Hin]; [in_cases Hin|].
    unfold usage_hint in Hin. destruct (ops_usage (ops md)); in_cases Hin.
  - apply in_app_iff in Hin as [Hin|Hin].
    { apply in_map_iff in Hin as (j & Hj & _). discriminate Hj. }
    in_cases Hin.
Qed.

Lemma main_init_no_invalid elf_fd elf mem_size argc argv m sz w tk r a :
  main_init E elf_fd elf mem_size argc argv m sz w = (tk, r) ->
  ~ In (Warnx (invalid_option a)) tk.
Proof.
  unfold main_init. intros H Hin. run H.
  all: try (in_cases Hin; fail).
  simpl in Hin. repeat (destruct Hin as [Hin|Hin]; [discriminate Hin|]).
  apply main_start_run in H
    as [(st & -> & _) | [(w1 & ts & o & Hs & _ & ->) | (w1 & m1 & w2 & ab & tf & _ & _ & -> & Hf)]].
  - in_cases Hin.
  - destruct Hin as [Hin|Hin]; [discriminate Hin|].
    eapply setup_modules_no_invalid; eauto.
  - destruct Hin as [Hin|Hin]; [discriminate Hin|].
    apply in_app_iff in Hin as [Hin|Hin].
    { apply in_map_iff in Hin as (j & Hj & _). discriminate Hj. }
    destruct Hin as [Hin|Hin]; [discriminate Hin|].
    destruct Hf as [(st & _ & -> & _) | [(st & _ & _ & -> & _)
                   | [(al & _ & _ & -> & _) | (al & _ & _ & -> & _)]]]; in_cases Hin.
Qed.

(** X15: if no module takes the null pointer for an option of its own (so
    that the second scan stays inside the argument vector), then when
    [main] warns "Invalid option: `a'" the token [a] is an argument of
    the command line, the usage follows and the run ends there with
    status 1. *)
Theorem invalid_option_ends_run :
  forall argv0 args w tr r a,
    null_declined (modules E) ->
    main E argv0 args w = (tr, r) ->
    In (Warnx ("Invalid option: `" ++ a ++ "'")) tr ->
    In a args /\
    r = Stop (Exit 1) /\
    exists pre, tr = pre ++ Warnx ("Invalid option: `" ++ a ++ "'")
                            :: usage_text E (basename E argv0).
Proof.
  intros argv0 args w tr r a _ H Hin.
  change ("Invalid option: `" ++ a ++ "'")%string with (invalid_option a) in Hin |- *.
  apply main_load_run in H
    as [(o & Hp & _) | [[-> _] | [(elf & -> & _) | [(elf & fd & st & -> & _)
       | [(elf & fd & -> & _) | [(elf & fd & rcn & sz & st & -> & _)
       | [(elf & fd & rcn & sz & -> & _)
       | (elf & rest & fd & rcn & sz & rcv & m1 & w1 & tk & -> & Hopt & _)]]]]]]].
  - exfalso. apply main_pass1_log in Hp.
    eapply Forall_in_false; [exact Hp | | exact Hin]. reflexivity.
  - exfalso. destruct Hin as [Hin|Hin]; [discriminate Hin|].
    eapply Forall_in_false; [apply usage_text_fprintf | | exact Hin]. reflexivity.
  - exfalso. in_cases Hin.
  - exfalso. in_cases Hin.
  - exfalso. in_cases Hin.
  - exfalso. in_cases Hin.
  - exfalso. in_cases Hin.
  - apply in_app_iff in Hin as [Hin|Hin]; [exfalso; in_cases Hin|].
    apply main_options_parts in Hopt
      as [(o & Hp & ->) | [(argv & mem' & m' & w' & Hp & _ & _)
                          | (t2 & argv & mem' & m' & w' & tk' & Hp & -> & Hinit)]].
    + destruct (main_pass2_warns _ _ _ _ _ _ _ _ _ (Nat.le_refl _) Hp Hin)
        as (Hr & a' & pre & Ha' & Heq & ->).
      apply invalid_option_inj in Heq. subst a'. injection Hr as ->.
      split; [exact Ha'|]. split; [reflexivity|].
      eexists (_ ++ pre). rewrite <- app_assoc. reflexivity.
    + destruct (main_pass2_warns _ _ _ _ _ _ _ _ _ (Nat.le_refl _) Hp Hin) as (Hr & _).
      discriminate Hr.
    + exfalso. apply in_app_iff in Hin as [Hin|Hin].
      * destruct (main_pass2_warns _ _ _ _ _ _ _ _ _ (Nat.le_refl _) Hp Hin) as (Hr & _).
        discriminate Hr.
      * eapply main_init_no_invalid; eauto.
Qed.

(** *** Signal handlers and guest memory *)

Lemma main_init_hvt_init elf_fd elf mem_size argc argv m sz w tk r pre ms b post :
  main_init E elf_fd elf mem_size argc argv m sz w = (tk, r) ->
  tk = pre ++ Call (c_hvt_init ms) b :: post ->
  exists r1 r2,
    pre = [Call (c_sigaction SIGINT) (Returns r1);
           Call (c_sigaction SIGTERM) (Returns r2);
           Call (c_hvt_mem_size mem_size) (Returns ms)]
    /\ r1 <> -1 /\ r2 <> -1.
Proof.
  unfold main_init. intros H Hs. run H.
  all: try solve [nosplit is_hvt_init Hs].
  all: try (apply main_start_events in H).
  all: unfold id in *.
  all: match type of Hs with
       | ?a :: ?b :: ?c :: ?x :: ?L = _ =>
           apply (split_first is_hvt_init [a; b; c] x L) in Hs as (-> & Hd & _);
             [|classes|reflexivity|classes|reflexivity]
       end.
  all: injection Hd as -> _; do 2 eexists; split; [reflexivity|];
    split; now apply Z.eqb_neq.
Qed.

(** X16: guest memory is set up only after both signal handlers are
    installed, and with the size that [hvt_mem_size] handed back: in any
    run, the call of [hvt_init] comes right after [sigaction] has
    succeeded for SIGINT and for SIGTERM and [hvt_mem_size] has returned
    the size [hvt_init] is given. *)
Theorem guest_memory_after_signal_handlers :
  forall argv0 args w tr r pre ms b post,
    main E argv0 args w = (tr, r) ->
    tr = pre ++ Call (c_hvt_init ms) b :: post ->
    exists pre' r1 r2 ms0,
      pre = pre' ++ [Call (c_sigaction SIGINT) (Returns r1);
                     Call (c_sigaction SIGTERM) (Returns r2);
                     Call (c_hvt_mem_size ms0) (Returns ms)]
      /\ r1 <> -1 /\ r2 <> -1.
Proof.
  intros argv0 args w tr r pre ms b post H Hs.
  apply main_load_run in H
    as [(o & Hp & _) | [[-> _] | [(elf & -> & _) | [(elf & fd & st & -> & _)
       | [(elf & fd & -> & _) | [(elf & fd & rcn & sz & st & -> & _)
       | [(elf & fd & rcn & sz & -> & _)
       | (elf & rest & fd & rcn & sz & rcv & m1 & w1 & tk & -> & Hopt & _)]]]]]]].
  - apply main_pass1_log in Hp. nosplit is_hvt_init Hs.
  - exfalso. apply (no_split is_hvt_init _ _ _ _) in Hs; [exact Hs| |reflexivity].
    apply Forall_cons; [reflexivity|].
    eapply Forall_class; [|apply usage_text_fprintf]. now intros [].
  - nosplit is_hvt_init Hs.
  - nosplit is_hvt_init Hs.
  - nosplit is_hvt_init Hs.
  - nosplit is_hvt_init Hs.
  - nosplit is_hvt_init Hs.
  - apply (split_skip is_hvt_init) in Hs as (p1 & -> & Hs); [|classes|reflexivity].
    apply main_options_parts in Hopt
      as [(o & Hp & ->) | [(argv & mem' & m' & w' & Hp & _ & _)
                          | (t2 & argv & mem' & m' & w' & tk' & Hp & -> & Hinit)]].
    + apply main_pass2_log with (n := List.length args) in Hp; [|lia].
      nosplit is_hvt_init Hs.
    + apply main_pass2_log with (n := List.length args) in Hp; [|lia].
      nosplit is_hvt_init Hs.
    + apply main_pass2_log with (n := List.length args) in Hp; [|lia].
      apply (split_skip is_hvt_init) in Hs as (p2 & -> & Hs); [|classes|reflexivity].
      destruct (main_init_hvt_init _ _ _ _ _ _ _ _ _ _ _ _ _ _ Hinit Hs)
        as (r1 & r2 & -> & Hr1 & Hr2).
      exists ([Call (c_open elf) (Returns fd); Call (c_elf_load_note fd elf) (Returns rcn);
                Call (c_mft_validate sz) (Returns rcv)] ++ t2), r1, r2, mem'. split; [|auto].
      rewrite <- !app_assoc. reflexivity.
Qed.

Lemma main_init_sigaction_fails elf_fd elf mem_size argc argv m sz w tk r s :
  main_init E elf_fd elf mem_size argc argv m sz w = (tk, r) ->
  In (Call (c_sigaction s) (Returns (-1))) tk ->
  r = Stop (Exit 1) /\
  exists pre, tk = pre ++ [Call (c_sigaction s) (Returns (-1)); Err 1 no_sig_handler].
Proof.
  unfold main_init. intros H Hin. run H.
  all: unfold id in *.
  all: try (apply main_start_events in H).
  all: simpl in Hin.
  all: repeat (destruct Hin as [Hin|Hin];
               [try discriminate Hin;
                try (injection Hin as <- Hx; subst; try discriminate)|]).
  all: try contradiction.
  all: try (exfalso; eapply Forall_in_false; [exact H | | exact Hin]; reflexivity).
  all: try (exfalso; apply Z.eqb_neq in Heqb; congruence).
  all: try (exfalso; apply Z.eqb_neq in Heqb0; congruence).
  - split; [reflexivity|]. exists []. simpl. rewrite Hx. reflexivity.
  - split; [reflexivity|]. eexists [_]. simpl. rewrite Hx. reflexivity.
Qed.

(** X17: a signal handler that cannot be installed ends the run: when
    [sigaction] returns -1, for SIGINT or for SIGTERM, [main] reports
    "Could not install signal handler" with [err] and exits with status 1;
    nothing follows. *)
Theorem signal_handler_failure_ends_run :
  forall argv0 args w tr r s,
    main E argv0 args w = (tr, r) ->
    In (Call (c_sigaction s) (Returns (-1))) tr ->
    r = Stop (Exit 1) /\
    exists pre, tr = pre ++ [Call (c_sigaction s) (Returns (-1)); Err 1 no_sig_handler].
Proof.
  intros argv0 args w tr r s H Hin.
  apply main_load_run in H
    as [(o & Hp & _) | [[-> _] | [(elf & -> & _) | [(elf & fd & st & -> & _)
       | [(elf & fd & -> & _) | [(elf & fd & rcn & sz & st & -> & _)
       | [(elf & fd & rcn & sz & -> & _)
       | (elf & rest & fd & rcn & sz & rcv & m1 & w1 & tk & -> & Hopt & _)]]]]]]].
  - exfalso. apply main_pass1_log in Hp.
    eapply Forall_in_false; [exact Hp | | exact Hin]. reflexivity.
  - exfalso. destruct Hin as [Hin|Hin]; [discriminate Hin|].
    eapply Forall_in_false; [apply usage_text_fprintf | | exact Hin]. reflexivity.
  - exfalso. in_cases Hin.
  - exfalso. in_cases Hin.
  - exfalso. in_cases Hin.
  - exfalso. in_cases Hin.
  - exfalso. in_cases Hin.
  - apply in_app_iff in Hin as [Hin|Hin]; [exfalso; in_cases Hin|].
    apply main_options_parts in Hopt
      as [(o & Hp & ->) | [(argv & mem' & m' & w' & Hp & _ & _)
                          | (t2 & argv & mem' & m' & w' & tk' & Hp & -> & Hinit)]].
    + exfalso. apply main_pass2_log with (n := List.length args) in Hp; [|lia].
      eapply Forall_in_false; [exact Hp | | exact Hin]. reflexivity.
    + exfalso. apply main_pass2_log with (n := List.length args) in Hp; [|lia].
      eapply Forall_in_false; [exact Hp | | exact Hin]. reflexivity.
    + apply main_pass2_log with (n := List.length args) in Hp; [|lia].
      apply in_app_iff in Hin as [Hin|Hin].
      { exfalso. eapply Forall_in_false; [exact Hp | | exact Hin]. reflexivity. }
      destruct (main_init_sigaction_fails _ _ _ _ _ _ _ _ _ _ _ Hinit Hin) as (-> & p & ->).
      split; [reflexivity|].
      exists ([Call (c_open elf) (Returns fd); Call (c_elf_load_note fd elf) (Returns rcn);
                Call (c_mft_validate sz) (Returns rcv)] ++ t2 ++ p). rewrite <- !app_assoc. reflexivity.
Qed.

(** ** The two scans, the image and the modules *)

(** *** From the first scan to the second *)






(** Read off the log alone: whenever [hvt_boot_info_init] is called, both
    scans have stopped at the kernel's name, and the vector it is given
    is what follows that name. *)
Lemma boot_info_gets_residual argv0 args w tr r kend argc residual m1 sz a :
  main E argv0 args w = (tr, r) ->
  In (Call (c_hvt_boot_info_init kend argc residual m1 sz) a) tr ->
  exists opts elf,
    args = opts ++ elf :: residual /\
    main_pass1 E (basename E argv0) args w = ([], Ok (elf :: residual) w) /\
    argc = Z.of_nat (List.length residual).
Proof.
  intros H Hin.
  apply main_boot_run in H as [[Ht _] | H].
  { rewrite Forall_forall in Ht. apply Ht in Hin. discriminate Hin. }
  destruct H as (opts & elf & residual' & fd & rcn & sz' & rcv & m0 & wa & t2 & mem' & m'
                 & wb & r1 & r2 & ms1 & h & ep & kend' & rcl & w1 & tk
                 & Ha & Hp1 & Hp2 & Ht2 & _ & _ & _ & _ & _ & -> & Hstart).
  apply in_app_iff in Hin as [Hin|Hin]; [simpl in Hin; intuition discriminate|].
  apply in_app_iff in Hin as [Hin|Hin].
  { rewrite Forall_forall in Ht2. apply Ht2 in Hin. discriminate Hin. }
  apply in_app_iff in Hin as [Hin|Hin]; [simpl in Hin; intuition discriminate|].
  destruct (main_start_boot_info _ _ _ _ _ _ _ _ _ _ _ _ _ _ _ _ Hstart Hin) as [-> ->].
  exists opts, elf. auto.
Qed.

(** *** The image descriptor *)

Lemma main_init_loaded fd elf mem argc argv m sz w tk r pre fd' elf' b post :
  main_init E fd elf mem argc argv m sz w = (tk, r) ->
  tk = pre ++ Call (c_elf_load fd' elf') (Returns b) :: post ->
  fd' = fd /\ elf' = elf /\
  (exists r1 r2 ms ms1,
      pre = [Call (c_sigaction SIGINT) (Returns r1); Call (c_sigaction SIGTERM) (Returns r2);
             Call (c_hvt_mem_size ms) (Returns ms1); Call (c_hvt_init ms1) (Returns 0)]) /\
  exists rc post', post = Call (c_close fd) (Returns rc) :: post'.
Proof.
  unfold main_init. intros H Hs. run H.
  all: unfold id in *.
  all: try solve [nosplit is_loaded Hs].
  apply main_start_events in H.
  match type of Hs with
  | ?a :: ?b :: ?c :: ?d :: ?x :: ?L = _ =>
      apply (split_first is_loaded [a; b; c; d] x L) in Hs as (-> & Hd & ->);
        [|classes|reflexivity|classes|reflexivity]
  end.
  injection Hd as -> -> _. split; [reflexivity|]. split; [reflexivity|]. split; eauto.
Qed.

(** C9 (as amended): wherever [elf_load] has returned, the very next step
    of [main] is [close], of the descriptor [elf_load] read from, which is
    the one [open] gave for that file; no module's [setup] has run by
    then.  And wherever the log has a [close], it is that one: it comes
    right after [elf_load] has returned, before any [setup], and no other
    [close] follows.  (A module's [handle_cmdarg] may well have run while
    the descriptor was open: see [module_runs_before_close].) *)
Theorem image_closed_after_load :
  forall argv0 args w tr r,
    main E argv0 args w = (tr, r) ->
    (forall pre fd elf b post,
        tr = pre ++ Call (c_elf_load fd elf) (Returns b) :: post ->
        In (Call (c_open elf) (Returns fd)) pre /\
        (forall i c, ~ In (Call (c_setup i) c) pre) /\
        exists rc post', post = Call (c_close fd) (Returns rc) :: post') /\
    (forall pre fd a post,
        tr = pre ++ Call (c_close fd) a :: post ->
        (exists pre' elf,
            pre = pre' ++ [Call (c_elf_load fd elf) (Returns 0)] /\
            In (Call (c_open elf) (Returns fd)) pre') /\
        (forall i b, ~ In (Call (c_setup i) b) pre) /\
        (forall fd' b, ~ In (Call (c_close fd') b) post)).
Proof.
  intros argv0 args w tr r H. split.
  - intros pre fd elf b post Hs.
    apply main_load_run in H
      as [(o & Hp & _) | [[-> _] | [(elf0 & -> & _) | [(elf0 & fd0 & st & -> & _)
         | [(elf0 & fd0 & -> & _) | [(elf0 & fd0 & rcn & sz & st & -> & _)
         | [(elf0 & fd0 & rcn & sz & -> & _)
         | (elf0 & rest & fd0 & rcn & sz & rcv & m1 & w1 & tk & -> & Hopt & _)]]]]]]].
    + apply main_pass1_log in Hp. nosplit is_loaded Hs.
    + exfalso. apply (no_split is_loaded _ _ _ _) in Hs; [exact Hs| |reflexivity].
      apply Forall_cons; [reflexivity|].
      eapply Forall_class; [|apply usage_text_fprintf]. now intros [].
    + nosplit is_loaded Hs.
    + nosplit is_loaded Hs.
    + nosplit is_loaded Hs.
    + nosplit is_loaded Hs.
    + nosplit is_loaded Hs.
    + apply (split_skip is_loaded) in Hs as (p1 & -> & Hs); [|classes|reflexivity].
      apply main_options_parts in Hopt
        as [(o & Hp & ->) | [(argv & mem' & m' & w' & Hp & _ & _)
                            | (t2 & argv & mem' & m' & w' & tk' & Hp & -> & Hinit)]].
      * apply main_pass2_log with (n := List.length args) in Hp; [|lia].
        nosplit is_loaded Hs.
      * apply main_pass2_log with (n := List.length args) in Hp; [|lia].
        nosplit is_loaded Hs.
      * apply main_pass2_log with (n := List.length args) in Hp; [|lia].
        apply (split_skip is_loaded) in Hs as (p2 & -> & Hs); [|classes|reflexivity].
        destruct (main_init_loaded _ _ _ _ _ _ _ _ _ _ _ _ _ _ _ Hinit Hs)
          as (-> & -> & (r1 & r2 & ms & ms1 & ->) & Hpost).
        split; [simpl; auto|]. split; [|exact Hpost].
        intros i c Hin.
        assert (Hc : Forall (fun e => is_setup e = false)
                       ([Call (c_open elf0) (Returns fd0);
                         Call (c_elf_load_note fd0 elf0) (Returns rcn);
                         Call (c_mft_validate sz) (Returns rcv)] ++
                        t2 ++
                        [Call (c_sigaction SIGINT) (Returns r1);
                         Call (c_sigaction SIGTERM) (Returns r2);
                         Call (c_hvt_mem_size ms) (Returns ms1);
                         Call (c_hvt_init ms1) (Returns 0)])) by classes.
        rewrite Forall_forall in Hc. apply Hc in Hin. discriminate.
  - intros pre fd a post Hsplit.
    apply main_boot_run in H as [[Ht _] | H].
    { exfalso. apply (no_split is_close tr pre (Call (c_close fd) a) post);
        [classes | reflexivity | exact Hsplit]. }
    destruct H as (opts & elf & residual & fd0 & rcn & sz & rcv & m0 & wa & t2 & mem' & m'
                   & wb & r1 & r2 & ms1 & h & ep & kend & rcl & w1 & tk
                   & _ & _ & _ & Ht2 & _ & _ & _ & _ & _ & -> & Hstart).
    apply main_start_events in Hstart.
    match type of Hsplit with
    | ?A ++ ?T ++ [?e1; ?e2; ?e3; ?e4; ?e5; ?c] ++ ?K = _ =>
        assert (Hshape : (A ++ T ++ [e1; e2; e3; e4; e5]) ++ c :: K
                         = pre ++ Call (c_close fd) a :: post)
          by (rewrite <- Hsplit; repeat rewrite <- app_assoc; reflexivity)
    end.
    apply (split_first is_close) in Hshape as (-> & Heq & ->);
      [| classes | reflexivity | classes | reflexivity].
    injection Heq as -> ->.
    split; [|split].
    + exists ([Call (c_open elf) (Returns fd0);
               Call (c_elf_load_note fd0 elf) (Returns rcn);
               Call (c_mft_validate sz) (Returns rcv)] ++
              t2 ++
              [Call (c_sigaction SIGINT) (Returns r1);
               Call (c_sigaction SIGTERM) (Returns r2);
               Call (c_hvt_mem_size mem') (Returns ms1);
               Call (c_hvt_init ms1) (Returns 0)]), elf.
      split.
      * rewrite <- !app_assoc. reflexivity.
      * simpl. auto.
    + intros i b Hin.
      assert (Hc : Forall (fun e => is_setup e = false)
                     ([Call (c_open elf) (Returns fd0);
                       Call (c_elf_load_note fd0 elf) (Returns rcn);
                       Call (c_mft_validate sz) (Returns rcv)] ++
                      t2 ++
                      [Call (c_sigaction SIGINT) (Returns r1);
                       Call (c_sigaction SIGTERM) (Returns r2);
                       Call (c_hvt_mem_size mem') (Returns ms1);
                       Call (c_hvt_init ms1) (Returns 0);
                       Call (c_elf_load fd0 elf) (Returns 0)])) by classes.
      rewrite Forall_forall in Hc. apply Hc in Hin. discriminate.
    + intros fd' b Hin.
      assert (Hc : Forall (fun e => is_close e = false) tk) by classes.
      rewrite Forall_forall in Hc. apply Hc in Hin. discriminate.
Qed.

(** *** What the modules are shown *)

Lemma handle_cmdarg_from_null :
  forall (ms : list (hvt_module world hvt)) i m w tr rc m' w',
    null_declined ms ->
    handle_cmdarg_from i ms None m w = (tr, Ok (rc, m') w') -> rc <> 0.
Proof.
  induction ms as [|md ms IH]; intros i m w tr rc m' w' Hnull H; simpl in H.
  - unfold ret in H. injection H as _ <- _ _. discriminate.
  - assert (Hms : null_declined ms).
    { intros md' hc m0 w0 rc0 m0' w0' Hin. apply Hnull. now right. }
    destruct (ops_handle_cmdarg (ops md)) as [hc|] eqn:Hhc; [|eauto].
    remember (Ok (rc, m') w') as r eqn:Hr in H.
    apply bind_call_inv in H as [(st & _ & _ & ->) | (a & w1 & t2 & Hf & H & _)];
      [discriminate Hr|].
    destruct a as [rc0 m1]. cbv beta iota in H.
    destruct (rc0 =? 0) eqn:Hrc.
    + exfalso. apply Z.eqb_eq in Hrc. subst rc0.
      exact (Hnull md hc m w 0 m1 w1 (or_introl eq_refl) Hhc Hf eq_refl).
    + subst r. eauto.
Qed.

(** If no module takes the null pointer, the second scan stays inside the
    argument vector. *)
Lemma main_pass2_stays prog : forall n argv mem m w tr r,
  (List.length argv <= n)%nat ->
  null_declined (modules E) ->
  main_pass2 E prog argv mem m w = (tr, r) ->
  r <> Stop Fault.
Proof.
  induction n as [|n IH]; intros argv mem m w tr r Hn Hnull H.
  - destruct argv; [|simpl in Hn; lia]. simpl in H. run H. discriminate.
  - destruct argv as [|a rest]; [simpl in H; run H; discriminate|].
    simpl in Hn. cbn [main_pass2] in H. run H; try discriminate.
    + split_bind H Hm.
      { apply handle_mem_run in Hm as [(v & _ & Hr) | [_ Hr]]; [discriminate Hr|].
        injection Hr as ->. discriminate. }
      apply handle_mem_run in Hm as [(v & -> & Hr) | [_ Hr]]; [|discriminate Hr].
      injection Hr as <- <-.
      split_bind H Hc.
      { apply handle_cmdarg_from_run in Hc as [(rc & m1 & w1 & Hr & _) | [_ (st & Hr)]];
          [discriminate Hr|]. injection Hr as ->. discriminate. }
      pose proof Hc as Hc'.
      apply handle_cmdarg_from_run in Hc as [(rc & m1 & w1 & Hr & _) | [_ (st & Hr)]];
        [|discriminate Hr].
      injection Hr as -> ->. cbn beta iota in H. run H.
      * exfalso. apply Z.eqb_eq in Heqb2. subst rc. simpl hd_error in Hc'.
        exact (handle_cmdarg_from_null _ _ _ _ _ _ _ _ Hnull Hc' eq_refl).
      * eapply IH; [|exact Hnull|exact H]. simpl in Hn. lia.
      * eapply IH; [|exact Hnull|exact H]. lia.
    + split_bind H Hc.
      { apply handle_cmdarg_from_run in Hc as [(rc & m1 & w1 & Hr & _) | [_ (st & Hr)]];
          [discriminate Hr|]. injection Hr as ->. discriminate. }
      apply handle_cmdarg_from_run in Hc as [(rc & m1 & w1 & Hr & _) | [_ (st & Hr)]];
        [|discriminate Hr].
      injection Hr as -> ->. cbn beta iota in H. run H.
      * eapply IH; [|exact Hnull|exact H]. lia.
      * discriminate.
Qed.

Lemma main_stays_in_vector argv0 args w tr r :
  null_declined (modules E) ->
  main E argv0 args w = (tr, r) ->
  r <> Stop Fault.
Proof.
  intros Hnull H.
  apply main_load_run in H
    as [(o & Hp & ->) | [[_ ->] | [(elf & _ & ->) | [(elf & fd & st & _ & _ & ->)
       | [(elf & fd & _ & _ & ->) | [(elf & fd & rcn & sz & st & _ & _ & _ & ->)
       | [(elf & fd & rcn & sz & _ & _ & _ & ->)
       | (elf & rest & fd & rcn & sz & rcv & m1 & w1 & tk & _ & Hopt & _)]]]]]]];
    try discriminate.
  - apply main_pass1_run in Hp as [(? & ? & Hr & _) | [_ [st Hr]]];
      [discriminate Hr | injection Hr as ->; discriminate].
  - apply main_options_parts in Hopt
      as [(o & Hp2 & ->) | [(argv & mem' & m' & w' & _ & _ & ->)
                           | (t2 & argv & mem' & m' & w' & tk' & _ & _ & Hinit)]].
    + intro Heq. injection Heq as ->.
      exact (main_pass2_stays _ _ _ _ _ _ _ _ (Nat.le_refl _) Hnull Hp2 eq_refl).
    + discriminate.
    + destruct r as [z w''|o]; [discriminate|].
      apply main_init_ends in Hinit as [st ->]. discriminate.
Qed.

(** X9: if no module takes the null pointer for an option of its own, the
    second scan of [main] never steps past the end of the argument
    vector, and whatever [main] passes to a module's [handle_cmdarg] is
    one of the arguments of the command line, or the null that ends the
    vector. *)
Theorem modules_see_arguments_only :
  forall argv0 args w tr r,
    null_declined (modules E) ->
    main E argv0 args w = (tr, r) ->
    r <> Stop Fault /\
    forall j c b,
      In (Call (c_handle_cmdarg j c) b) tr ->
      c = None \/ exists x, c = Some x /\ In x args.
Proof.
  intros argv0 args w tr r Hnull H.
  split; [eapply main_stays_in_vector; eauto|].
  intros j c b Hin.
  apply main_load_run in H
    as [(o & Hp & _) | [[-> _] | [(elf & -> & _) | [(elf & fd & st & -> & _)
       | [(elf & fd & -> & _) | [(elf & fd & rcn & sz & st & -> & _)
       | [(elf & fd & rcn & sz & -> & _)
       | (elf & rest & fd & rcn & sz & rcv & m1 & w1 & tk & -> & Hopt & _)]]]]]]].
  - exfalso. apply main_pass1_log in Hp.
    eapply Forall_in_false; [exact Hp | | exact Hin]. reflexivity.
  - exfalso. destruct Hin as [Hin|Hin]; [discriminate Hin|].
    eapply Forall_in_false; [apply usage_text_fprintf | | exact Hin]. reflexivity.
  - exfalso. in_cases Hin.
  - exfalso. in_cases Hin.
  - exfalso. in_cases Hin.
  - exfalso. in_cases Hin.
  - exfalso. in_cases Hin.
  - apply in_app_iff in Hin as [Hin|Hin]; [exfalso; in_cases Hin|].
    apply main_options_parts in Hopt
      as [(o & Hp & _) | [(argv & mem' & m' & w' & Hp & _ & _)
                         | (t2 & argv & mem' & m' & w' & tk' & Hp & -> & Hinit)]].
    + eapply main_pass2_shows; [apply Nat.le_refl | exact Hp | exact Hin].
    + eapply main_pass2_shows; [apply Nat.le_refl | exact Hp | exact Hin].
    + apply in_app_iff in Hin as [Hin|Hin].
      * eapply main_pass2_shows; [apply Nat.le_refl | exact Hp | exact Hin].
      * exfalso. apply main_init_log in Hinit.
        eapply Forall_in_false; [exact Hinit | | exact Hin]. reflexivity.
Qed.

End Properties.

(** * The model at work *)

Local Open Scope string_scope.
Local Open Scope list_scope.
Local Open Scope Z_scope.

(** C2: [handle_mem] takes [--mem=512] as 512 * 2^20 bytes and rejects
    [--mem=0] and [--mem=abc] with status 1; but [--mem=-1] it accepts: the
    -1 that [%zd] reads lands in a [size_t], where the test [mem <= 0] only
    catches 0, and the tender goes on to ask for 2^64 - 2^20 bytes. *)
Theorem mem_minus_one_accepted :
  (forall (world hvt : Type) (E : env world hvt) (w : world),
      handle_mem E "--mem=512" w = ([], Ok (512 * 2 ^ 20) w) /\
      handle_mem E "--mem=0" w = ([Errx 1 malformed_mem], Stop (Exit 1)) /\
      handle_mem E "--mem=abc" w = ([Errx 1 malformed_mem], Stop (Exit 1)) /\
      handle_mem E "--mem=-1" w = ([], Ok (2 ^ 64 - 2 ^ 20) w)) /\
  In (Call (c_hvt_init (2 ^ 64 - 2 ^ 20)) (Returns 0))
     (fst (main Sample.plain "hvt" ["--mem=-1"; "--net:tap0"; "kernel"] tt)).
Proof.
  split.
  - intros world hvt E w. apply handle_mem_samples.
  - vm_compute. auto 20.
Qed.

(** C3: on the command line [--mem=512 kernel] the modules are never shown
    [--mem=512]; what [handle_cmdarg] passes them after the memory option
    is the argument that follows it, here the kernel's name. *)
Theorem mem_option_offers_next_token :
  let tr := fst (main Sample.plain "hvt" ["--mem=512"; "kernel"] tt) in
  In (Call (c_handle_cmdarg 1 (Some "kernel")) (Returns (-1))) tr /\
  (forall i a, ~ In (Call (c_handle_cmdarg i (Some "--mem=512")) a) tr).
Proof.
  vm_compute fst. split.
  - simpl. auto 10.
  - intros i a Hin. simpl in Hin. intuition discriminate.
Qed.

(** The same with a module that takes anything: it claims the kernel's
    name, the second scan runs past it, and the assertion fails. *)
Lemma mem_option_then_greedy_module :
  snd (main (Sample.config [Sample.greedy] true) "hvt" ["--mem=512"; "kernel"] tt)
  = Stop Abort.
Proof. reflexivity. Qed.

(** In that run both scans return, at different arguments: the first at
    the kernel's name, the second at the end of the vector. *)
Lemma second_scan_passes_kernel :
  main_pass1 (Sample.config [Sample.greedy] true) "hvt" ["--mem=512"; "kernel"] tt
  = ([], Ok ["kernel"] tt) /\
  main_pass2 (Sample.config [Sample.greedy] true) "hvt" ["--mem=512"; "kernel"]
             536870912 Sample.manifest tt
  = ([Call (c_handle_cmdarg 0 (Some "kernel")) (Returns 0)],
     Ok ([], 536870912, Sample.manifest) tt).
Proof. split; reflexivity. Qed.

(** [--mem=] followed by 2^44 is rejected, and by 2^44 + 1 it is taken for
    one mebibyte: the shift wraps around. *)
Lemma handle_mem_wraps :
  handle_mem Sample.plain "--mem=17592186044416" tt
  = ([Errx 1 malformed_mem], Stop (Exit 1)) /\
  handle_mem Sample.plain "--mem=17592186044417" tt = ([], Ok (2 ^ 20) tt).
Proof. split; reflexivity. Qed.

(** ** Where the specification says otherwise *)


(** C9, as stated, fails: code of a module, its [handle_cmdarg], runs
    before the image descriptor is closed. *)
Lemma module_runs_before_close :
  ~ (forall args tr r pre fd a post,
        main Sample.plain "hvt" args tt = (tr, r) ->
        tr = pre ++ Call (c_close fd) a :: post ->
        forall i c b, ~ In (Call (c_handle_cmdarg i c) b) pre).
Proof.
  intro Hall.
  apply (Hall ["--net:tap0"; "kernel"] _ _
              [Call (c_open "kernel") (Returns 3);
               Call (c_elf_load_note 3 "kernel") (Returns 0);
               Call (c_mft_validate 96) (Returns 0);
               Call (c_handle_cmdarg 1 (Some "--net:tap0")) (Returns 0);
               Call (c_sigaction 2) (Returns 0); Call (c_sigaction 15) (Returns 0);
               Call (c_hvt_mem_size 536870912) (Returns 536870912);
               Call (c_hvt_init 536870912) (Returns 0);
               Call (c_elf_load 3 "kernel") (Returns 0)]
              3 (Returns 0) _ eq_refl eq_refl
              1%nat (Some "--net:tap0") (Returns 0)).
  simpl. auto 10.
Qed.

(** C10, as stated, fails: [--mem=0M] is digits and a suffix, and is
    rejected. *)
Lemma mem_suffix_rejected :
  ~ (forall ds suf,
        ds <> "" -> all_digits ds = true -> suf <> "" -> has_digit suf = false ->
        handle_mem Sample.plain ("--mem=" ++ ds ++ suf) tt
        = ([], Ok (scan_digits ds 0 * 2 ^ 20) tt)).
Proof.
  intro Hall.
  assert (H0 : handle_mem Sample.plain "--mem=0M" tt = ([], Ok (0 * 2 ^ 20) tt)).
  { apply (Hall "0" "M"); [discriminate | reflexivity | discriminate | reflexivity]. }
  vm_compute in H0. discriminate H0.
Qed.

(** ** The theorems on the sample configuration *)

Lemma privilege_drop_after_boot_witness :
  exists tr r,
    main Sample.plain "hvt" ["--net:tap0"; "kernel"; "a"] tt = (tr, r) /\
    In (Call c_hvt_drop_privileges (Returns 0)) tr /\
    (forall en,
        In (Warnx (not_attached Sample.plain en)) tr ->
        r = Stop (Exit 1) /\ forall a, ~ In (Call c_hvt_drop_privileges a) tr).
Proof.
  eexists. eexists. split; [reflexivity|]. split.
  - vm_compute. auto 20.
  - exact (proj2 (privilege_drop_after_boot Sample.plain "hvt"
                    ["--net:tap0"; "kernel"; "a"] tt _ _ eq_refl)).
Defined.

Lemma first_claim_wins_witness :
  exists tr r,
    handle_cmdarg Sample.rivals (Some "--net:tap0") Sample.manifest tt = (tr, r) /\
    (forall c a, ~ In (Call (c_handle_cmdarg 2 c) a) tr).
Proof.
  eexists. eexists. split; [reflexivity|].
  refine (proj1 (first_claim_wins Sample.rivals [Sample.core] Sample.net [] Sample.greedy []
                   _ _ "--net:tap0" Sample.manifest tt _ _ eq_refl eq_refl eq_refl _ _ eq_refl)).
  - intros m w. exists (Sample.attach 2 m), w. reflexivity.
  - intros m w. exists m, w. reflexivity.
Defined.

Lemma audit_reports_unattached_witness :
  setup_modules Sample.plain tt Sample.manifest tt
  = ([Call (c_setup 0) (Returns 0); Call (c_setup 1) (Returns 0);
      Warnx (not_attached Sample.plain Sample.net0); Errx 1 all_attached_msg],
     Stop (Exit 1)).
Proof.
  exact (proj1 (audit_reports_unattached Sample.plain tt Sample.manifest tt _ _ _ eq_refl)).
Defined.




Lemma handle_mem_ignores_suffix_witness :
  handle_mem Sample.plain "--mem=512M" tt = ([], Ok (512 * 2 ^ 20) tt).
Proof.
  apply (handle_mem_ignores_suffix Sample.plain "512" "M" tt).
  - discriminate.
  - reflexivity.
  - reflexivity.
  - vm_compute. split; reflexivity.
Defined.

(** ** More of the theorems on sample runs *)

Lemma missing_kernel_operand_witness :
  main Sample.plain "hvt" ["--net:tap0"; "--"] tt
  = (Warnx "Missing KERNEL operand" :: usage_text Sample.plain "hvt", Stop (Exit 1)).
Proof.
  apply (missing_kernel_operand Sample.plain "hvt" ["--net:tap0"] ["--net:tap0"; "--"] tt).
  - repeat constructor.
  - right. reflexivity.
Defined.

Lemma terminal_option_after_options_witness :
  main Sample.plain "hvt" ["--net:tap0"; "--help"; "kernel"] tt
  = (usage_text Sample.plain "hvt", Stop (Exit 1)) /\
  main Sample.plain "hvt" ["--net:tap0"; "--version"; "kernel"] tt
  = ([Fprintf ("hvt" ++ " " ++ "v0.6.4" ++ nl)], Stop (Exit 0)).
Proof.
  apply (terminal_option_after_options Sample.plain "hvt" ["--net:tap0"] ["kernel"] tt).
  repeat constructor.
Defined.

Lemma kernel_is_first_operand_witness :
  (exists tl, fst (main Sample.plain "hvt" ["--net:tap0"; "kernel"; "-v"] tt)
              = Call (c_open "kernel") (Returns 3) :: tl) /\
  (exists tl, fst (main Sample.plain "hvt" ["--net:tap0"; "--"; "-kernel"; "-v"] tt)
              = Call (c_open "-kernel") (Returns 3) :: tl).
Proof.
  split.
  - apply (proj1 (kernel_is_first_operand Sample.plain "hvt" ["--net:tap0"] "kernel" ["-v"] tt
                    ltac:(repeat constructor))).
    reflexivity.
  - apply (proj2 (kernel_is_first_operand Sample.plain "hvt" ["--net:tap0"] "-kernel" ["-v"] tt
                    ltac:(repeat constructor))).
Defined.

Lemma handle_mem_outcomes_witness :
  (exists v, @nil event = [] /\ Ok 67108864 tt = Ok v tt /\
             String.prefix "--mem=" "--mem=64" = true /\ mebibytes v) \/
  (@nil event = [Errx 1 malformed_mem] /\ @Ok unit Z 67108864 tt = Stop (Exit 1)).
Proof.
  exact (handle_mem_outcomes Sample.plain "--mem=64" tt [] (Ok 67108864 tt) eq_refl).
Defined.

Lemma unclaimed_token_goes_round_witness :
  exists tr r,
    handle_cmdarg Sample.plain (Some "--foo") Sample.manifest tt = (tr, r) /\
    (exists m' w', r = Ok (-1, m') w') /\
    Forall2 (fun j e => exists rc, rc <> 0 /\
                                   e = Call (c_handle_cmdarg j (Some "--foo")) (Returns rc))
            (handler_positions 0 (modules Sample.plain)) tr.
Proof.
  eexists. eexists. split; [reflexivity|].
  refine (unclaimed_token_goes_round Sample.plain (Some "--foo") Sample.manifest tt _ _ _ eq_refl).
  intros md hc m w [<-|[<-|[]]] Hhc.
  - discriminate Hhc.
  - injection Hhc as <-. exists (-1), m, w. split; [reflexivity | discriminate].
Defined.

Lemma setup_modules_returns_witness :
  exists tr m1 w1,
    setup_modules Sample.plain tt (Sample.attach 2 Sample.manifest) tt = (tr, Ok m1 w1) /\
    tr = setups_ok 0 (List.length (modules Sample.plain)) /\
    (forall en, In en (mft_e m1) ->
                e_type en < MFT_RESERVED_FIRST Sample.plain -> e_attached en = true).
Proof.
  eexists. eexists. eexists. split; [reflexivity|].
  exact (setup_modules_returns Sample.plain tt (Sample.attach 2 Sample.manifest) tt
           _ _ _ eq_refl).
Defined.

Lemma open_failure_ends_run_witness :
  main Faults.unopened "hvt" ["--net:tap0"; "kernel"] tt
  = ([Call (c_open "kernel") (Returns (-1)); Err 1 (could_not_open "kernel")],
     Stop (Exit 1)).
Proof.
  destruct (open_failure_ends_run Faults.unopened "hvt" ["--net:tap0"; "kernel"] tt
              _ _ "kernel" eq_refl (or_introl eq_refl)) as [Ht Hr].
  exact (f_equal2 pair Ht Hr).
Defined.

Lemma manifest_failure_ends_run_witness :
  (exists tr r,
      main Faults.no_note "hvt" ["kernel"] tt = (tr, r) /\
      tr = [Call (c_open "kernel") (Returns 3);
            Call (c_elf_load_note 3 "kernel") (Returns (-1));
            Errx 1 (no_manifest "kernel")] /\
      r = Stop (Exit 1)) /\
  (exists tr r,
      main Faults.bad_manifest "hvt" ["kernel"] tt = (tr, r) /\
      exists p fd rcn,
        tr = [Call (c_open p) (Returns fd); Call (c_elf_load_note fd p) (Returns rcn);
              Call (c_mft_validate 96) (Returns (-1)); Call c_free (Returns 0);
              Errx 1 (invalid_manifest p)] /\
        r = Stop (Exit 1)).
Proof.
  split.
  - eexists. eexists. split; [reflexivity|].
    apply (proj1 (manifest_failure_ends_run Faults.no_note "hvt" ["kernel"] tt _ _ eq_refl)).
    vm_compute. auto.
  - eexists. eexists. split; [reflexivity|].
    apply (proj2 (manifest_failure_ends_run Faults.bad_manifest "hvt" ["kernel"] tt
                    _ _ eq_refl)).
    vm_compute. auto.
Defined.


Lemma default_memory_size_witness :
  exists tr r,
    main Sample.plain "hvt" ["--net:tap0"; "kernel"] tt = (tr, r) /\
    In (Call (c_hvt_mem_size 536870912) (Returns 536870912)) tr /\
    536870912 = 512 * 2 ^ 20.
Proof.
  eexists. eexists. split; [reflexivity|].
  assert (Hin : In (Call (c_hvt_mem_size 536870912) (Returns 536870912))
                   (fst (main Sample.plain "hvt" ["--net:tap0"; "kernel"] tt))).
  { vm_compute. auto 10. }
  split; [exact Hin|].
  apply (default_memory_size Sample.plain "hvt" ["--net:tap0"; "kernel"] tt
           _ _ 536870912 (Returns 536870912)
           ltac:(repeat constructor) eq_refl Hin).
Defined.

Lemma memory_size_in_mebibytes_witness :
  exists tr r,
    main Sample.plain "hvt" ["--mem=64"; "--net:tap0"; "kernel"] tt = (tr, r) /\
    In (Call (c_hvt_mem_size 67108864) (Returns 67108864)) tr /\
    mebibytes 67108864.
Proof.
  eexists. eexists. split; [reflexivity|].
  assert (Hin : In (Call (c_hvt_mem_size 67108864) (Returns 67108864))
                   (fst (main Sample.plain "hvt" ["--mem=64"; "--net:tap0"; "kernel"] tt))).
  { vm_compute. auto 10. }
  split; [exact Hin|].
  apply (memory_size_in_mebibytes Sample.plain "hvt" ["--mem=64"; "--net:tap0"; "kernel"] tt
           _ _ 67108864 (Returns 67108864) eq_refl Hin).
Defined.

Lemma no_drop_build_warns_witness :
  exists tr r,
    main Faults.permissive "hvt" ["--net:tap0"; "kernel"] tt = (tr, r) /\
    (forall a, ~ In (Call c_hvt_drop_privileges a) tr) /\
    (forall pre al post,
        tr = pre ++ Call c_hvt_vcpu_loop al :: post ->
        post = [] /\
        exists pre', pre = pre' ++ [Warnx no_drop_warning1; Warnx no_drop_warning2]).
Proof.
  eexists. eexists. split; [reflexivity|].
  exact (no_drop_build_warns Faults.permissive "hvt" ["--net:tap0"; "kernel"] tt
           _ _ eq_refl eq_refl).
Defined.

Lemma main_returns_loop_status_witness :
  exists tr r,
    main Sample.plain "hvt" ["--net:tap0"; "kernel"] tt = (tr, r) /\
    ((exists w', r = Ok 0 w') ->
     exists tr', tr = tr' ++ [Call c_hvt_vcpu_loop (Returns 0)]) /\
    (In (Call c_hvt_vcpu_loop (Returns 0)) tr -> exists w', r = Ok 0 w').
Proof.
  eexists. eexists. split; [reflexivity|].
  exact (main_returns_loop_status Sample.plain "hvt" ["--net:tap0"; "kernel"] tt
           _ _ 0 eq_refl).
Defined.

Lemma scans_agree_without_mem_option_witness :
  exists tr r,
    main Sample.plain "hvt" ["--net:tap0"; "kernel"] tt = (tr, r) /\
    ((exists st, r = Stop (Exit st)) \/ (exists z w', r = Ok z w')).
Proof.
  eexists. eexists. split; [reflexivity|].
  exact (scans_agree_without_mem_option Sample.plain "hvt" ["--net:tap0"; "kernel"] tt
           _ _ ltac:(repeat constructor) eq_refl).
Defined.


Lemma guest_memory_after_signal_handlers_witness :
  exists pre' r1 r2 ms0,
    [Call (c_open "kernel") (Returns 3);
     Call (c_elf_load_note 3 "kernel") (Returns 0);
     Call (c_mft_validate 96) (Returns 0);
     Call (c_handle_cmdarg 1 (Some "--net:tap0")) (Returns 0);
     Call (c_sigaction 2) (Returns 0); Call (c_sigaction 15) (Returns 0);
     Call (c_hvt_mem_size 536870912) (Returns 536870912)]
    = pre' ++ [Call (c_sigaction SIGINT) (Returns r1);
               Call (c_sigaction SIGTERM) (Returns r2);
               Call (c_hvt_mem_size ms0) (Returns 536870912)]
    /\ r1 <> -1 /\ r2 <> -1.
Proof.
  exact (guest_memory_after_signal_handlers Sample.plain "hvt" ["--net:tap0"; "kernel"] tt
           _ _
           [Call (c_open "kernel") (Returns 3);
            Call (c_elf_load_note 3 "kernel") (Returns 0);
            Call (c_mft_validate 96) (Returns 0);
            Call (c_handle_cmdarg 1 (Some "--net:tap0")) (Returns 0);
            Call (c_sigaction 2) (Returns 0); Call (c_sigaction 15) (Returns 0);
            Call (c_hvt_mem_size 536870912) (Returns 536870912)]
           536870912 (Returns 0)
           [Call (c_elf_load 3 "kernel") (Returns 0);
            Call (c_close 3) (Returns 0);
            Call (c_hvt_vcpu_init 1048576) (Returns 0);
            Call (c_setup 0) (Returns 0); Call (c_setup 1) (Returns 0);
            Call (c_hvt_boot_info_init 2097152 0 [] (Sample.attach 2 Sample.manifest) 96)
                 (Returns 0);
            Call c_hvt_drop_privileges (Returns 0);
            Call c_hvt_vcpu_loop (Returns 0)]
           eq_refl eq_refl).
Defined.

Lemma signal_handler_failure_ends_run_witness :
  exists tr r,
    main Faults.no_sigterm "hvt" ["--net:tap0"; "kernel"] tt = (tr, r) /\
    r = Stop (Exit 1) /\
    exists pre, tr = pre ++ [Call (c_sigaction SIGTERM) (Returns (-1)); Err 1 no_sig_handler].
Proof.
  eexists. eexists. split; [reflexivity|].
  apply (signal_handler_failure_ends_run Faults.no_sigterm "hvt" ["--net:tap0"; "kernel"] tt
           _ _ SIGTERM eq_refl).
  vm_compute. auto 10.
Defined.

(** ** The two scans, the image and the modules on sample runs *)


Lemma setup_modules_in_table_order_witness :
  exists tr r,
    setup_modules Sample.faulty tt Sample.manifest tt = (tr, r) /\
    tr = [Call (c_setup 0) (Returns 0); Call (c_setup 1) (Returns (-1));
          Warnx "Module `broken' setup failed";
          Warnx ("Please check you have correctly specified:"
                 ++ String "010" "    --broken")] /\
    r = Stop (Exit 1) /\
    ((exists m1 w1,
         setup_from 0 (modules Sample.faulty) tt Sample.manifest tt
         = (setups_ok 0 (List.length (modules Sample.faulty)), Ok m1 w1) /\
         tr = setups_ok 0 (List.length (modules Sample.faulty))
              ++ map (fun en => Warnx (not_attached Sample.faulty en))
                     (unattached Sample.faulty (mft_e m1))
              ++ match unattached Sample.faulty (mft_e m1) with
                 | [] => []
                 | _ => [Errx 1 all_attached_msg]
                 end /\
         r = match unattached Sample.faulty (mft_e m1) with
             | [] => Ok m1 w1
             | _ => Stop (Exit 1)
             end) \/
     (exists pre md post rc,
         modules Sample.faulty = pre ++ md :: post /\ rc <> 0 /\ r = Stop (Exit 1) /\
         tr = setups_ok 0 (List.length pre)
              ++ [Call (c_setup (List.length pre)) (Returns rc);
                  Warnx ("Module `" ++ m_name md ++ "' setup failed")]
              ++ match ops_usage (ops md) with
                 | Some u => [Warnx ("Please check you have correctly specified:"
                                     ++ String "010" ("    " ++ u))]
                 | None => []
                 end) \/
     (exists pre md post st,
         modules Sample.faulty = pre ++ md :: post /\ r = Stop (Exit st) /\
         tr = setups_ok 0 (List.length pre)
              ++ [Call (c_setup (List.length pre)) (Exits st)])).
Proof.
  eexists. eexists. split; [reflexivity|]. split; [reflexivity|]. split; [reflexivity|].
  exact (setup_modules_in_table_order Sample.faulty tt Sample.manifest tt _ _ eq_refl).
Defined.

Lemma image_closed_after_load_witness :
  In (Call (c_open "kernel") (Returns 3))
     [Call (c_open "kernel") (Returns 3);
      Call (c_elf_load_note 3 "kernel") (Returns 0);
      Call (c_mft_validate 96) (Returns 0);
      Call (c_handle_cmdarg 1 (Some "--net:tap0")) (Returns 0);
      Call (c_sigaction 2) (Returns 0); Call (c_sigaction 15) (Returns 0);
      Call (c_hvt_mem_size 536870912) (Returns 536870912);
      Call (c_hvt_init 536870912) (Returns 0)] /\
  (forall i c,
      ~ In (Call (c_setup i) c)
           [Call (c_open "kernel") (Returns 3);
            Call (c_elf_load_note 3 "kernel") (Returns 0);
            Call (c_mft_validate 96) (Returns 0);
            Call (c_handle_cmdarg 1 (Some "--net:tap0")) (Returns 0);
            Call (c_sigaction 2) (Returns 0); Call (c_sigaction 15) (Returns 0);
            Call (c_hvt_mem_size 536870912) (Returns 536870912);
            Call (c_hvt_init 536870912) (Returns 0)]) /\
  exists rc post',
    [Call (c_close 3) (Returns 0);
     Call (c_hvt_vcpu_init 1048576) (Returns 0);
     Call (c_setup 0) (Returns 0); Call (c_setup 1) (Returns 0);
     Call (c_hvt_boot_info_init 2097152 0 [] (Sample.attach 2 Sample.manifest) 96)
          (Returns 0);
     Call c_hvt_drop_privileges (Returns 0);
     Call c_hvt_vcpu_loop (Returns 0)]
    = Call (c_close 3) (Returns rc) :: post'.
Proof.
  exact (proj1 (image_closed_after_load Sample.plain "hvt" ["--net:tap0"; "kernel"] tt
                  ([Call (c_open "kernel") (Returns 3);
                    Call (c_elf_load_note 3 "kernel") (Returns 0);
                    Call (c_mft_validate 96) (Returns 0);
                    Call (c_handle_cmdarg 1 (Some "--net:tap0")) (Returns 0);
                    Call (c_sigaction 2) (Returns 0); Call (c_sigaction 15) (Returns 0);
                    Call (c_hvt_mem_size 536870912) (Returns 536870912);
                    Call (c_hvt_init 536870912) (Returns 0)]
                   ++ Call (c_elf_load 3 "kernel") (Returns 0)
                   :: [Call (c_close 3) (Returns 0);
                       Call (c_hvt_vcpu_init 1048576) (Returns 0);
                       Call (c_setup 0) (Returns 0); Call (c_setup 1) (Returns 0);
                       Call (c_hvt_boot_info_init 2097152 0 []
                               (Sample.attach 2 Sample.manifest) 96) (Returns 0);
                       Call c_hvt_drop_privileges (Returns 0);
                       Call c_hvt_vcpu_loop (Returns 0)])
                  (Ok 0 tt) eq_refl)
           [Call (c_open "kernel") (Returns 3);
            Call (c_elf_load_note 3 "kernel") (Returns 0);
            Call (c_mft_validate 96) (Returns 0);
            Call (c_handle_cmdarg 1 (Some "--net:tap0")) (Returns 0);
            Call (c_sigaction 2) (Returns 0); Call (c_sigaction 15) (Returns 0);
            Call (c_hvt_mem_size 536870912) (Returns 536870912);
            Call (c_hvt_init 536870912) (Returns 0)]
           3 "kernel" 0
           [Call (c_close 3) (Returns 0);
            Call (c_hvt_vcpu_init 1048576) (Returns 0);
            Call (c_setup 0) (Returns 0); Call (c_setup 1) (Returns 0);
            Call (c_hvt_boot_info_init 2097152 0 [] (Sample.attach 2 Sample.manifest) 96)
                 (Returns 0);
            Call c_hvt_drop_privileges (Returns 0);
            Call c_hvt_vcpu_loop (Returns 0)]
           eq_refl).
Defined.

Lemma modules_see_arguments_only_witness :
  exists tr r,
    main Sample.plain "hvt" ["--net:tap0"; "kernel"] tt = (tr, r) /\
    r <> Stop Fault /\
    forall j c b,
      In (Call (c_handle_cmdarg j c) b) tr ->
      c = None \/ exists x, c = Some x /\ In x ["--net:tap0"; "kernel"].
Proof.
  eexists. eexists. split; [reflexivity|].
  refine (modules_see_arguments_only Sample.plain "hvt" ["--net:tap0"; "kernel"] tt _ _
            _ eq_refl).
  intros md hc m w rc m' w' [<-|[<-|[]]] Hhc Hret.
  - discriminate Hhc.
  - injection Hhc as <-. injection Hret as <- _ _. discriminate.
Defined.

Lemma invalid_option_ends_run_witness :
  exists tr r,
    main Sample.plain "hvt" ["--bogus"; "kernel"] tt = (tr, r) /\
    In "--bogus" ["--bogus"; "kernel"] /\
    r = Stop (Exit 1) /\
    exists pre, tr = pre ++ Warnx "Invalid option: `--bogus'" :: usage_text Sample.plain "hvt".
Proof.
  eexists. eexists. split; [reflexivity|].
  refine (invalid_option_ends_run Sample.plain "hvt" ["--bogus"; "kernel"] tt
            _ _ "--bogus" _ eq_refl _).
  - intros md hc m w rc m' w' [<-|[<-|[]]] Hhc Hret.
    + discriminate Hhc.
    + injection Hhc as <-. injection Hret as <- _ _. discriminate.
  - vm_compute. auto 10.
Defined.
